(** * RN2483 LoRaWAN driver: command/response engine

    A shallow embedding of [rn2483/rn2483.py] and the properties of its
    command/response protocol.

    The driver is a MicroPython program (it imports [machine] and [utime]).
    Its effects are a serial line, a reset pin, a watchdog and a clock; they
    are modelled by one record holding the instance attributes, the answers
    the serial line gives to successive reads, and the log of every action
    performed, oldest first.  Every method becomes a function in a small
    state-and-exception monad over that record; the two unbounded [while]
    loops take a fuel argument.

    [_print] only writes to the console when [debug] is set and touches
    nothing that is modelled here, so it is left out. *)

From Stdlib Require Import String Ascii List ZArith NArith Lia Bool DecimalString.
Import ListNotations.
Open Scope string_scope.

(** ** The Python values the driver handles *)

Module Py.

(** [bytes] is a sequence of 8-bit values.  A MicroPython [str] is stored as
    the UTF-8 encoding of its characters, so [str] is a byte sequence too;
    the two are kept apart by name and by the conversions below. *)
Definition bytes := string.
Definition str := string.

Definition CRLF : str := String "013" (String "010" EmptyString).

(** [bytes(s, "utf-8")]: the UTF-8 encoding of [s], which is its storage. *)
Definition encode_utf8 (s : str) : bytes := s.

Definition is_cont (c : N) : bool := (N.land c 192 =? 128)%N.

(** Number of continuation bytes announced by a lead byte; [None] for a byte
    that cannot start a character. *)
Definition lead_need (c : N) : option nat :=
  if (c <? 128)%N then Some 0
  else if (c <? 192)%N then None
  else if (c <? 224)%N then Some 1
  else if (c <? 240)%N then Some 2
  else if (c <? 248)%N then Some 3
  else None.

Fixpoint utf8_check_from (need : nat) (p : bytes) : bool :=
  match p with
  | EmptyString => Nat.eqb need 0
  | String a p' =>
      let c := N_of_ascii a in
      match need with
      | S need' => if is_cont c then utf8_check_from need' p' else false
      | O => match lead_need c with
             | Some n => utf8_check_from n p'
             | None => false
             end
      end
  end.

Definition utf8_check (p : bytes) : bool := utf8_check_from 0 p.

(** [b.decode("utf-8")]: the same bytes seen as text when they are
    well-formed UTF-8; [None] stands for the [UnicodeError] it raises
    otherwise. *)
Definition decode_utf8 (b : bytes) : option str :=
  if utf8_check b then Some b else None.

(** [len(s)] counts characters: the bytes that are not continuation bytes. *)
Fixpoint len (s : str) : nat :=
  match s with
  | EmptyString => 0
  | String a s' => (if is_cont (N_of_ascii a) then 0 else 1) + len s'
  end.

(** Whitespace removed by [str.strip()]: space, tab, line feed, carriage
    return, vertical tab and form feed. *)
Definition is_space (a : ascii) : bool :=
  let c := N_of_ascii a in
  ((c =? 32) || ((9 <=? c) && (c <=? 13)))%N.

Fixpoint lstrip (s : str) : str :=
  match s with
  | EmptyString => EmptyString
  | String a s' => if is_space a then lstrip s' else s
  end.

Fixpoint rstrip (s : str) : str :=
  match s with
  | EmptyString => EmptyString
  | String a s' =>
      match rstrip s' with
      | EmptyString => if is_space a then EmptyString else String a EmptyString
      | r => String a r
      end
  end.

(** [s.strip()] removes whitespace at both ends. *)
Definition strip (s : str) : str := rstrip (lstrip s).

(** [str(n)] and [f"{n}"] for an [int]: decimal digits, with a sign when
    negative. *)
Definition str_of_int (n : Z) : str := NilZero.string_of_int (Z.to_int n).

Definition hex_digit (n : N) : ascii :=
  nth (N.to_nat n) (list_ascii_of_string "0123456789abcdef") "f"%char.

(** [binascii.hexlify]: two lowercase hexadecimal digits per byte, high
    nibble first. *)
Fixpoint hexlify (b : bytes) : bytes :=
  match b with
  | EmptyString => EmptyString
  | String a b' =>
      let c := N_of_ascii a in
      String (hex_digit (N.shiftr c 4))
        (String (hex_digit (N.land c 15)) (hexlify b'))
  end.

(** Truth value of an [Optional[bytes]]: [None] and the empty byte string
    are false. *)
Definition truthy (r : option bytes) : bool :=
  match r with
  | None => false
  | Some EmptyString => false
  | Some (String _ _) => true
  end.

Definition list_eqb (l1 l2 : list str) : bool :=
  if list_eq_dec string_dec l1 l2 then true else false.

End Py.
Import Py.

(** ** The driver instance and its environment *)

(** What the program does to the outside world, in the order it does it. *)
Inductive event : Type :=
| Feed                              (* wdt.feed() *)
| Write (data : bytes)              (* uart_connection.write(data) *)
| SleepMs (ms : Z)                  (* sleep_ms(ms) *)
| ReadLine (got : option bytes)     (* uart_connection.readline() *)
| Read (got : option bytes)         (* uart_connection.read() *)
| SendBreak                         (* uart_connection.sendbreak() *)
| PinHigh                           (* reset_pin.high() *)
| PinLow.                           (* reset_pin.low() *)

(** The attributes of [self] that the methods use, together with the serial
    line: [rx n] is what the [n]-th read of the line returns ([None] when
    the read times out), [reads] counts the reads made so far, and [trace]
    records the events.  [hw_eui] is [None] until [sys_get_hweui] has
    assigned the attribute. *)
Record RN2483 : Type := mkRN2483 {
  hw_eui : option str;
  app_eui : str;
  app_key : str;
  rx : nat -> option bytes;
  reads : nat;
  trace : list event
}.

Definition log (e : event) (self : RN2483) : RN2483 :=
  {| hw_eui := hw_eui self; app_eui := app_eui self; app_key := app_key self;
     rx := rx self; reads := reads self; trace := trace self ++ [e] |}.

Definition consume (self : RN2483) : RN2483 :=
  {| hw_eui := hw_eui self; app_eui := app_eui self; app_key := app_key self;
     rx := rx self; reads := S (reads self); trace := trace self |}.

Definition set_hw_eui (v : str) (self : RN2483) : RN2483 :=
  {| hw_eui := Some v; app_eui := app_eui self; app_key := app_key self;
     rx := rx self; reads := reads self; trace := trace self |}.

(** The message of an [RN2483InvalidResponse].  [execute_multiple]
    interpolates the [repr] of two lists into its message; the two lists are
    kept as they are instead of being printed. *)
Inductive message : Type :=
| Text (text : string)
| Lists (results valid : list str).

Inductive exn : Type :=
| RN2483InvalidInput (message : string)
| RN2483NoResponseError
| RN2483InvalidResponse (message : message)
| UnicodeError          (* raised by [bytes.decode] *)
| AttributeError.       (* reading [self.hw_eui] before it is assigned *)

(** Outcome of a call: a value, an exception, or a loop cut short by the
    fuel bound. *)
Inductive result (A : Type) : Type :=
| Return (a : A)
| Raise (e : exn)
| OutOfFuel.
Arguments Return {A} a.
Arguments Raise {A} e.
Arguments OutOfFuel {A}.

Definition M (A : Type) : Type := RN2483 -> result A * RN2483.

Definition ret {A} (a : A) : M A := fun self => (Return a, self).
Definition raise {A} (e : exn) : M A := fun self => (Raise e, self).
Definition out_of_fuel {A} : M A := fun self => (OutOfFuel, self).

Definition bind {A B} (c : M A) (k : A -> M B) : M B :=
  fun self =>
    match c self with
    | (Return a, self') => k a self'
    | (Raise e, self') => (Raise e, self')
    | (OutOfFuel, self') => (OutOfFuel, self')
    end.

Declare Scope py_scope.
Delimit Scope py_scope with py.
Notation "x <- c ;; k" := (bind c (fun x => k))
  (at level 61, c at next level, right associativity) : py_scope.
Notation "c ;; k" := (bind c (fun _ => k))
  (at level 61, right associativity) : py_scope.
Open Scope py_scope.

Definition wdt_feed : M unit := fun self => (Return tt, log Feed self).
Definition sleep_ms (ms : Z) : M unit :=
  fun self => (Return tt, log (SleepMs ms) self).
Definition uart_write (data : bytes) : M unit :=
  fun self => (Return tt, log (Write data) self).
Definition uart_readline : M (option bytes) :=
  fun self =>
    let got := rx self (reads self) in
    (Return got, log (ReadLine got) (consume self)).
Definition uart_read : M (option bytes) :=
  fun self =>
    let got := rx self (reads self) in
    (Return got, log (Read got) (consume self)).
Definition uart_sendbreak : M unit :=
  fun self => (Return tt, log SendBreak self).
Definition reset_pin_high : M unit := fun self => (Return tt, log PinHigh self).
Definition reset_pin_low : M unit := fun self => (Return tt, log PinLow self).

(** [response.decode("utf-8")] *)
Definition decode (response : bytes) : M str :=
  match decode_utf8 response with
  | Some text => ret text
  | None => raise UnicodeError
  end.

(** [self.hw_eui] *)
Definition get_hw_eui : M str :=
  fun self =>
    match hw_eui self with
    | Some v => (Return v, self)
    | None => (Raise AttributeError, self)
    end.

(** [self.hw_eui = v] *)
Definition assign_hw_eui (v : str) : M unit :=
  fun self => (Return tt, set_hw_eui v self).

Definition get_app_eui : M str := fun self => (Return (app_eui self), self).
Definition get_app_key : M str := fun self => (Return (app_key self), self).

(** ** The methods of [RN2483] *)

Definition _bool_to_on_off (on : bool) : str := if on then "on" else "off".

Definition reset (wait_in_ms : Z) : M unit :=
  reset_pin_high ;;
  sleep_ms wait_in_ms ;;
  wdt_feed ;;
  reset_pin_low ;;
  sleep_ms wait_in_ms ;;
  wdt_feed ;;
  reset_pin_high ;;
  sleep_ms wait_in_ms ;;
  wdt_feed.

Definition sys_sleep (length : Z) : M unit :=
  if ((length <? 100) || (length >? 4294967296))%Z then
    raise (RN2483InvalidInput
             "The length to sleep must be between 100 and 4294967296!")
  else
    uart_write (encode_utf8 ("sys sleep " ++ str_of_int length ++ CRLF)) ;;
    wdt_feed.

Definition execute_message (decoded valid : str) : message :=
  Text ("The response " ++ decoded ++ " didn't match the exptected "
          ++ valid ++ "!").

Definition execute (command : str) (validate : bool) (valid : str) : M str :=
  wdt_feed ;;
  uart_write (encode_utf8 (command ++ CRLF)) ;;
  sleep_ms 100 ;;
  wdt_feed ;;
  response <- uart_readline ;;
  if negb (truthy response) then raise RN2483NoResponseError
  else
    text <- decode (match response with Some b => b | None => EmptyString end) ;;
    let decoded := strip text in
    if validate && negb (decoded =? valid) then
      raise (RN2483InvalidResponse (execute_message decoded valid))
    else
      wdt_feed ;;
      ret decoded.

(** The [while response is not None] loop of [execute_multiple]; [fuel]
    bounds the number of passes. *)
Fixpoint read_loop (fuel : nat) (response : option bytes) (results : list str)
  : M (list str) :=
  match response with
  | None => ret results
  | Some _ =>
      match fuel with
      | O => out_of_fuel
      | S fuel' =>
          wdt_feed ;;
          sleep_ms 5000 ;;
          response' <- uart_readline ;;
          wdt_feed ;;
          if truthy response' then
            text <- decode (match response' with
                            | Some b => b | None => EmptyString end) ;;
            read_loop fuel' response' (results ++ [strip text])
          else
            read_loop fuel' response' results
      end
  end.

Definition execute_multiple (fuel : nat) (command : str) (validate : bool)
    (valid : list str) : M (list str) :=
  wdt_feed ;;
  uart_write (encode_utf8 (command ++ CRLF)) ;;
  sleep_ms 5000 ;;
  wdt_feed ;;
  response <- uart_readline ;;
  if negb (truthy response) then raise RN2483NoResponseError
  else
    text <- decode (match response with Some b => b | None => EmptyString end) ;;
    results <- read_loop fuel response [strip text] ;;
    if validate && negb (list_eqb results valid) then
      raise (RN2483InvalidResponse (Lists results valid))
    else
      ret results.

Definition sys_get_ver : M str := execute "sys get ver" false "ok".

Definition sys_get_hweui : M str :=
  v <- execute "sys get hweui" false "ok" ;;
  assign_hw_eui v ;;
  get_hw_eui.

(** The [while self.sys_get_hweui() == "invalid_param"] loop of
    [_poll_until_ready]; [fuel] bounds the number of times the condition is
    evaluated. *)
Fixpoint poll_loop (fuel : nat) : M unit :=
  match fuel with
  | O => out_of_fuel
  | S fuel' =>
      answer <- sys_get_hweui ;;
      if answer =? "invalid_param" then
        sleep_ms 10 ;;
        sys_get_hweui ;;
        wdt_feed ;;
        poll_loop fuel'
      else ret tt
  end.

Definition _poll_until_ready (fuel : nat) : M unit :=
  wdt_feed ;;
  poll_loop fuel ;;
  uart_read ;;
  wdt_feed.

Definition send_break_condition (fuel : nat) : M unit :=
  uart_sendbreak ;;
  _poll_until_ready fuel.

Definition mac_reset (band : Z) : M unit :=
  execute ("mac reset " ++ str_of_int band) false "ok" ;; ret tt.

Definition mac_set_deveui (deveui : str) : M unit :=
  execute ("mac set deveui " ++ deveui) true "ok" ;; ret tt.

Definition mac_set_appeui (appeui : str) : M unit :=
  if negb (Nat.eqb (len appeui) 16) then
    raise (RN2483InvalidInput "The AppEUI needs to be exact 16 characters long!")
  else
    execute ("mac set appeui " ++ appeui) true "ok" ;; ret tt.

Definition mac_set_appkey (appkey : str) : M unit :=
  if negb (Nat.eqb (len appkey) 32) then
    raise (RN2483InvalidInput "The AppKey needs to be exact 32 characters long!")
  else
    execute ("mac set appkey " ++ appkey) true "ok" ;; ret tt.

Definition mac_set_pwridx (pwrindex : Z) : M unit :=
  if ((pwrindex <? 0) || (pwrindex >? 5))%Z then
    raise (RN2483InvalidInput
      "The power index needs to be between 0 and 5 for 433 MHz and 1 to 5 for 868 MHz!")
  else
    execute ("mac set pwridx " ++ str_of_int pwrindex) true "ok" ;; ret tt.

Definition mac_set_dr (datarate : Z) : M unit :=
  if ((datarate <? 0) || (datarate >? 7))%Z then
    raise (RN2483InvalidInput "The data rate need to be between 0 and 7!")
  else
    execute ("mac set dr " ++ str_of_int datarate) true "ok" ;; ret tt.

Definition mac_set_adr (on : bool) : M unit :=
  let value := _bool_to_on_off on in
  execute ("mac set adr " ++ value) true "ok" ;; ret tt.

Definition mac_set_ar (on : bool) : M unit :=
  let value := _bool_to_on_off on in
  execute ("mac set ar " ++ value) true "ok" ;; ret tt.

Definition radio_set_pwr (index : Z) : M unit :=
  if ((index <? 3) || (index >? 15))%Z then
    raise (RN2483InvalidInput "The power index must be between 3 and 15!")
  else
    execute ("radio set pwr " ++ str_of_int index) true "ok" ;; ret tt.

Definition mac_save : M unit := execute "mac save" true "ok" ;; ret tt.

Definition mac_join (fuel : nat) (mode : str) : M unit :=
  execute_multiple fuel ("mac join " ++ mode) true ["ok"; "accepted"] ;; ret tt.

Definition send (data : str) : M unit :=
  let encoded := encode_utf8 data in
  buffer <- decode (hexlify encoded) ;;
  execute ("mac tx uncnf 1 " ++ buffer) false "ok" ;; ret tt.

Definition initialize_ttn_otaa (fuel : nat) : M unit :=
  sys_get_hweui ;;
  sleep_ms 100 ;;
  mac_reset 868 ;;
  deveui <- get_hw_eui ;;
  mac_set_deveui deveui ;;
  appeui <- get_app_eui ;;
  mac_set_appeui appeui ;;
  appkey <- get_app_key ;;
  mac_set_appkey appkey ;;
  mac_set_pwridx 1 ;;
  mac_set_dr 5 ;;
  mac_set_adr false ;;
  mac_set_ar false ;;
  mac_save ;;
  sleep_ms 3000 ;;
  wdt_feed ;;
  mac_join fuel "otaa" ;;
  wdt_feed.

(** [RN2483.__init__] once the UART and the pins are created: store the
    credentials, pulse the reset line, poll until the module answers. *)
Definition boot (line : nat -> option bytes) (appeui appkey : str) : RN2483 :=
  {| hw_eui := None; app_eui := appeui; app_key := appkey;
     rx := line; reads := 0; trace := [] |}.

Definition __init__ (fuel : nat) : M unit :=
  reset 500 ;;
  _poll_until_ready fuel.

(** A serial line that gives the listed answers to the first reads and
    times out on every later one. *)
Definition script (answers : list (option bytes)) : nat -> option bytes :=
  fun n => nth n answers None.

Definition line (text : str) : option bytes := Some (text ++ CRLF).

(** ** Vocabulary for stating what a run did *)

(** [ends_in_text s]: [s] is not empty and its last byte is not whitespace. *)
Fixpoint ends_in_text (s : str) : bool :=
  match s with
  | EmptyString => false
  | String a EmptyString => negb (is_space a)
  | String _ s' => ends_in_text s'
  end.

(** [advance n evs self]: [self] after [n] more reads of the serial line and
    after the events [evs]. *)
Definition advance (n : nat) (evs : list event) (self : RN2483) : RN2483 :=
  {| hw_eui := hw_eui self; app_eui := app_eui self; app_key := app_key self;
     rx := rx self; reads := n + reads self; trace := trace self ++ evs |}.

(** The byte strings written to the serial line, in order. *)
Fixpoint writes_of (t : list event) : list bytes :=
  match t with
  | [] => []
  | Write data :: t' => data :: writes_of t'
  | _ :: t' => writes_of t'
  end.

(** The run from [self] to [final] wrote exactly [sent], in that order. *)
Definition writes_after (self final : RN2483) (sent : list bytes) : Prop :=
  writes_of (trace final) = (writes_of (trace self) ++ sent)%list.

Definition is_sleep (ms : Z) (e : event) : bool :=
  match e with
  | SleepMs n => (n =? ms)%Z
  | _ => false
  end.

(** The text the driver takes from a read: [None] when nothing was read or
    when the bytes do not decode; otherwise the decoded, stripped line. *)
Definition received (r : option bytes) : option str :=
  match r with
  | Some (String a b) => option_map strip (decode_utf8 (String a b))
  | _ => None
  end.

(** The text of an answer, empty when there is none. *)
Definition text_of (r : option bytes) : str :=
  match received r with
  | Some decoded => decoded
  | None => EmptyString
  end.

(** The serial line answers the reads from position [p] on with [rs]. *)
Fixpoint next_reads (f : nat -> option bytes) (p : nat)
    (rs : list (option bytes)) : Prop :=
  match rs with
  | [] => True
  | r :: rs' => f p = r /\ next_reads f (S p) rs'
  end.

(** Every line the serial port delivers is well-formed UTF-8. *)
Definition utf8_line (f : nat -> option bytes) : Prop :=
  forall n b, f n = Some b -> utf8_check b = true.

(** A read that brings bytes which [bytes.decode] refuses. *)
Definition undecodable (r : option bytes) : bool :=
  match r with
  | Some b => negb (utf8_check b)
  | None => false
  end.

(** The texts of the reads that carried data, in order; [None] when one of
    them does not decode. *)
Fixpoint gather (rs : list (option bytes)) : option (list str) :=
  match rs with
  | [] => Some []
  | r :: rs' =>
      if truthy r then
        match received r, gather rs' with
        | Some t, Some ts => Some (t :: ts)
        | _, _ => None
        end
      else gather rs'
  end.

(** The exception [execute] raises on the answer [got], if it raises one:
    nothing read, bytes that do not decode, or a text that fails
    validation. *)
Definition refusal (validate : bool) (valid : str) (got : option bytes)
  : option exn :=
  match received got with
  | Some decoded =>
      if validate && negb (decoded =? valid) then
        Some (RN2483InvalidResponse (execute_message decoded valid))
      else None
  | None =>
      Some (if truthy got then UnicodeError else RN2483NoResponseError)
  end.

(** [final] is [self] after some more reads and events: the serial line and
    the credentials are the same, and the trace has only grown. *)
Definition extends (self final : RN2483) : Prop :=
  rx final = rx self /\ app_eui final = app_eui self /\
  app_key final = app_key self /\ reads self <= reads final /\
  exists evs, trace final = (trace self ++ evs)%list.

Definition grows {A} (c : M A) : Prop :=
  forall self, extends self (snd (c self)).

(** Events of one command/response exchange up to and including the read. *)
Definition exchange (command : str) (settle : Z) (got : option bytes)
  : list event :=
  [Feed; Write (command ++ CRLF); SleepMs settle; Feed; ReadLine got].

(** Events of one pass of the read loop of [execute_multiple]. *)
Definition loop_pass (got : option bytes) : list event :=
  [Feed; SleepMs 5000; ReadLine got; Feed].

(** Events of one successful hardware-EUI query. *)
Definition hweui_query (got : option bytes) : list event :=
  exchange "sys get hweui" 100 got ++ [Feed].

(** Events of a run of [_poll_until_ready] that goes through the loop body
    once per element of [passes]: the answer to the query of the loop test
    and the answer to the query of the loop body. *)
Definition poll_pass (p : option bytes * option bytes) : list event :=
  hweui_query (fst p) ++ [SleepMs 10] ++ hweui_query (snd p) ++ [Feed].

Definition poll_trace (passes : list (option bytes * option bytes))
    (final extra : option bytes) : list event :=
  [Feed] ++ flat_map poll_pass passes ++ hweui_query final
    ++ [Read extra; Feed].

Definition poll_reads (passes : list (option bytes * option bytes))
    (final extra : option bytes) : list (option bytes) :=
  flat_map (fun p => [fst p; snd p]) passes ++ [final; extra].

(** The commands of the join-and-configure sequence, as written to the
    serial line. *)
Definition otaa_commands (hweui appeui appkey : str) : list bytes :=
  map (fun c => c ++ CRLF)
    [ "sys get hweui";
      "mac reset 868";
      "mac set deveui " ++ hweui;
      "mac set appeui " ++ appeui;
      "mac set appkey " ++ appkey;
      "mac set pwridx 1";
      "mac set dr 5";
      "mac set adr off";
      "mac set ar off";
      "mac save";
      "mac join otaa" ].

(** Which of the ten single-response commands of the sequence validate
    their response against ["ok"]. *)
Definition otaa_validated : list bool :=
  [false; false; true; true; true; true; true; true; true; true].

(** A step of the join-and-configure sequence: a command that takes one
    response line (a call built on [execute]), the join, which takes lines
    until a read times out (built on [execute_multiple]), a delay, or a feed
    of the watchdog. *)
Inductive step : Type :=
| Command (command : str)
| Join (command : str)
| Delay (ms : Z)
| FeedWatchdog.

(** The steps of the sequence, in the order of the statements of
    [initialize_ttn_otaa]. *)
Definition otaa_steps (hweui appeui appkey : str) : list step :=
  [ Command "sys get hweui";
    Delay 100;
    Command "mac reset 868";
    Command ("mac set deveui " ++ hweui);
    Command ("mac set appeui " ++ appeui);
    Command ("mac set appkey " ++ appkey);
    Command "mac set pwridx 1";
    Command "mac set dr 5";
    Command "mac set adr off";
    Command "mac set ar off";
    Command "mac save";
    Delay 3000;
    FeedWatchdog;
    Join "mac join otaa";
    FeedWatchdog ].

(** The byte strings the steps write. *)
Fixpoint commands_of (steps : list step) : list bytes :=
  match steps with
  | [] => []
  | Command c :: steps' => (c ++ CRLF) :: commands_of steps'
  | Join c :: steps' => (c ++ CRLF) :: commands_of steps'
  | _ :: steps' => commands_of steps'
  end.

(** The events of steps that all complete, when the reads they make return
    [answers]: a command takes one answer and ends with the feed of
    [execute]; the join takes all the answers that are left, the first in
    its exchange and each of the others in a pass of its loop. *)
Fixpoint performed (steps : list step) (answers : list (option bytes))
  : list event :=
  match steps with
  | [] => []
  | Command c :: steps' =>
      (exchange c 100 (hd None answers) ++ [Feed]
         ++ performed steps' (tl answers))%list
  | Join c :: steps' =>
      (exchange c 5000 (hd None answers) ++ flat_map loop_pass (tl answers)
         ++ performed steps' [])%list
  | Delay ms :: steps' => SleepMs ms :: performed steps' answers
  | FeedWatchdog :: steps' => Feed :: performed steps' answers
  end.

(** *** Watchdog discipline

    A long-wait point is a sleep or a blocking read.  Scanning a run, the
    discipline asks that the last feed-or-wait event before a wait point be
    a feed, and so be the next one after it. *)
Inductive last_seen : Type := Nothing | Fed | Waited.

Definition is_wait (e : event) : bool :=
  match e with
  | SleepMs _ | ReadLine _ | Read _ => true
  | _ => false
  end.

Fixpoint fed_around_waits_from (seen : last_seen) (t : list event) : bool :=
  match t with
  | [] => match seen with Waited => false | _ => true end
  | Feed :: t' => fed_around_waits_from Fed t'
  | e :: t' =>
      if is_wait e then
        match seen with
        | Fed => fed_around_waits_from Waited t'
        | _ => false
        end
      else fed_around_waits_from seen t'
  end.

Definition fed_around_waits (t : list event) : bool :=
  fed_around_waits_from Nothing t.

(** *** The behaviour the specification describes, where it differs *)

(** The read loop in the specification's words: feed the watchdog, wait,
    feed the watchdog, read one line; append while a line is returned, stop
    on the first empty or missing read. *)
Fixpoint read_loop_as_specified (fuel : nat) (results : list str)
  : M (list str) :=
  match fuel with
  | O => out_of_fuel
  | S fuel' =>
      wdt_feed ;;
      sleep_ms 5000 ;;
      wdt_feed ;;
      response <- uart_readline ;;
      if truthy response then
        text <- decode (match response with
                        | Some b => b | None => EmptyString end) ;;
        read_loop_as_specified fuel' (results ++ [strip text])
      else ret results
  end.

Definition execute_multiple_as_specified (fuel : nat) (command : str)
    (validate : bool) (valid : list str) : M (list str) :=
  wdt_feed ;;
  uart_write (encode_utf8 (command ++ CRLF)) ;;
  sleep_ms 5000 ;;
  wdt_feed ;;
  response <- uart_readline ;;
  if negb (truthy response) then raise RN2483NoResponseError
  else
    text <- decode (match response with Some b => b | None => EmptyString end) ;;
    results <- read_loop_as_specified fuel [strip text] ;;
    if validate && negb (list_eqb results valid) then
      raise (RN2483InvalidResponse (Lists results valid))
    else
      ret results.

(** The readiness poll in the specification's words: one query per attempt,
    a 10 time-unit sleep and a watchdog feed between attempts, until the
    answer is not the sentinel. *)
Fixpoint poll_loop_as_specified (fuel : nat) : M unit :=
  match fuel with
  | O => out_of_fuel
  | S fuel' =>
      answer <- sys_get_hweui ;;
      if answer =? "invalid_param" then
        sleep_ms 10 ;;
        wdt_feed ;;
        poll_loop_as_specified fuel'
      else ret tt
  end.

(** ** Sample runs *)

Definition demo (answers : list (option bytes)) : RN2483 :=
  boot (script answers) "0123456789012345" "01234567890123450123456789012345".

(** The answers of a module that accepts every command of the
    join-and-configure sequence and then reports [join]. *)
Definition otaa_answers (join : list (option bytes)) : list (option bytes) :=
  [line "example_hw_eui"; line "ok"] ++ repeat (line "ok") 8 ++ join.

(** ** Vocabulary for the whole interface *)

(** A call of one of the methods of the class, with its arguments. *)
Inductive method : Type :=
| Reset (wait_in_ms : Z)
| PollUntilReady
| SendBreakCondition
| SysSleep (length : Z)
| Execute (command : str) (validate : bool) (valid : str)
| ExecuteMultiple (command : str) (validate : bool) (valid : list str)
| SysGetVer
| SysGetHweui
| MacReset (band : Z)
| MacSetDeveui (deveui : str)
| MacSetAppeui (appeui : str)
| MacSetAppkey (appkey : str)
| MacSetPwridx (pwrindex : Z)
| MacSetDr (datarate : Z)
| MacSetAdr (on : bool)
| MacSetAr (on : bool)
| RadioSetPwr (index : Z)
| MacSave
| MacJoin (mode : str)
| Send (data : str)
| InitializeTtnOtaa.

(** Run a call, forgetting the value it returns. *)
Definition invoke (fuel : nat) (m : method) : M unit :=
  match m with
  | Reset wait_in_ms => reset wait_in_ms
  | PollUntilReady => _poll_until_ready fuel
  | SendBreakCondition => send_break_condition fuel
  | SysSleep length => sys_sleep length
  | Execute command validate valid => execute command validate valid ;; ret tt
  | ExecuteMultiple command validate valid =>
      execute_multiple fuel command validate valid ;; ret tt
  | SysGetVer => sys_get_ver ;; ret tt
  | SysGetHweui => sys_get_hweui ;; ret tt
  | MacReset band => mac_reset band
  | MacSetDeveui deveui => mac_set_deveui deveui
  | MacSetAppeui appeui => mac_set_appeui appeui
  | MacSetAppkey appkey => mac_set_appkey appkey
  | MacSetPwridx pwrindex => mac_set_pwridx pwrindex
  | MacSetDr datarate => mac_set_dr datarate
  | MacSetAdr on => mac_set_adr on
  | MacSetAr on => mac_set_ar on
  | RadioSetPwr index => radio_set_pwr index
  | MacSave => mac_save
  | MacJoin mode => mac_join fuel mode
  | Send data => send data
  | InitializeTtnOtaa => initialize_ttn_otaa fuel
  end.

(** The instance after a caller has made the calls [ms] one after the other,
    going on after a call that raised. *)
Fixpoint session (fuel : nat) (ms : list method) (self : RN2483) : RN2483 :=
  match ms with
  | [] => self
  | m :: ms' => session fuel ms' (snd (invoke fuel m self))
  end.

(** The calls that run the hardware-EUI query. *)
Definition queries_hweui (m : method) : bool :=
  match m with
  | PollUntilReady | SendBreakCondition | SysGetHweui | InitializeTtnOtaa => true
  | _ => false
  end.

(** [c] relates every instance to the one it leaves behind by [R]. *)
Definition preserves (R : RN2483 -> RN2483 -> Prop) {A} (c : M A) : Prop :=
  forall self, R self (snd (c self)).

Definition ends_with_crlf (data : bytes) : Prop :=
  exists command, data = command ++ CRLF.

(** Every byte string written so far ends with the line terminator. *)
Definition crlf_terminated (self : RN2483) : Prop :=
  Forall ends_with_crlf (writes_of (trace self)).

Definition same_hw_eui (self final : RN2483) : Prop :=
  hw_eui final = hw_eui self.

Definition keeps_crlf (self final : RN2483) : Prop :=
  crlf_terminated self -> crlf_terminated final.

(** [s] is empty or starts with a byte that is not whitespace. *)
Definition starts_in_text (s : str) : bool :=
  match s with
  | EmptyString => true
  | String a _ => negb (is_space a)
  end.

Fixpoint index_of (a : ascii) (l : list ascii) : option nat :=
  match l with
  | [] => None
  | b :: l' => if Ascii.eqb a b then Some 0 else option_map S (index_of a l')
  end.

(** The value of a lowercase hexadecimal digit. *)
Definition hex_value (a : ascii) : option N :=
  option_map N.of_nat
    (index_of a (list_ascii_of_string "0123456789abcdef")).

(** Reading lowercase hexadecimal back into bytes, two digits per byte;
    [None] on anything else. *)
Fixpoint unhex (h : bytes) : option bytes :=
  match h with
  | EmptyString => Some EmptyString
  | String hi (String lo h') =>
      match hex_value hi, hex_value lo, unhex h' with
      | Some x, Some y, Some b => Some (String (ascii_of_N (16 * x + y)) b)
      | _, _, _ => None
      end
  | String _ EmptyString => None
  end.

(** Events of [reset]. *)
Definition reset_trace (wait_in_ms : Z) : list event :=
  [PinHigh; SleepMs wait_in_ms; Feed; PinLow; SleepMs wait_in_ms; Feed;
   PinHigh; SleepMs wait_in_ms; Feed].

(** ** Checks of the runtime functions *)

Example strip_crlf : strip ("ok" ++ CRLF) = "ok".
Proof. reflexivity. Qed.

Example strip_both_ends : strip ("  ok " ++ CRLF) = "ok".
Proof. reflexivity. Qed.

Example hexlify_PeterMaffay : hexlify "PeterMaffay" = "50657465724d6166666179".
Proof. reflexivity. Qed.

Example str_of_int_868 : str_of_int 868 = "868".
Proof. reflexivity. Qed.

Example decode_rejects_stray_byte :
  decode_utf8 (String (ascii_of_N 255) CRLF) = None.
Proof. reflexivity. Qed.

(** ** The repository's tests, replayed

    The mock serial line of the tests answers without line endings; after
    the first ["invalid_param"] it answers every hardware-EUI query with
    ["example_hw_eui"]. *)

Example test_rn2483_construction_with_no_answer :
  fst (__init__ 1 (boot (script []) "appeui" "appkey"))
    = Raise RN2483NoResponseError.
Proof. reflexivity. Qed.

Example test_rn2483_construction_correct_answer :
  let ready :=
    snd (__init__ 2
           (demo [Some "invalid_param"; Some "example_hw_eui";
                  Some "example_hw_eui"; Some "example_hw_eui"])) in
  hw_eui ready = Some "example_hw_eui" /\
  app_eui ready = "0123456789012345" /\
  app_key ready = "01234567890123450123456789012345".
Proof. repeat split. Qed.

Example test_sys_sleep_invalid_input :
  fst (sys_sleep 0 (demo [])) =
    Raise (RN2483InvalidInput
             "The length to sleep must be between 100 and 4294967296!") /\
  fst (sys_sleep 4294967297 (demo [])) =
    Raise (RN2483InvalidInput
             "The length to sleep must be between 100 and 4294967296!").
Proof. split; reflexivity. Qed.

Example test_sys_sleep_valid_input :
  writes_of (trace (snd (sys_sleep 100 (demo [])))) = ["sys sleep 100" ++ CRLF].
Proof. reflexivity. Qed.

Example test_mac_set_pwridx_invalid_input :
  (exists m, fst (mac_set_pwridx (-1) (demo [])) = Raise (RN2483InvalidInput m)) /\
  (exists m, fst (mac_set_pwridx 6 (demo [])) = Raise (RN2483InvalidInput m)).
Proof. split; eexists; reflexivity. Qed.

Example test_radio_set_pwr_valid_input :
  writes_of (trace (snd (radio_set_pwr 5 (demo [Some "ok"]))))
    = ["radio set pwr 5" ++ CRLF].
Proof. reflexivity. Qed.

Example test_initialize_ttn_otaa :
  let run := initialize_ttn_otaa 2
               (demo ([Some "example_hw_eui"] ++ repeat (Some "ok") 9
                        ++ [Some "ok"; Some "accepted"; None])) in
  fst run = Return tt /\
  last (writes_of (trace (snd run))) EmptyString = "mac join otaa" ++ CRLF.
Proof. vm_compute. split; reflexivity. Qed.

Example test_execute_with_wrong_answer :
  fst (execute "test" true "ok" (demo [Some "invalid_param"]))
    = Raise (RN2483InvalidResponse
               (Text "The response invalid_param didn't match the exptected ok!")).
Proof. reflexivity. Qed.

Example test_execute_multiple_with_wrong_answer :
  fst (execute_multiple 2 "mac join otaa" true ["ok"; "accepted"]
         (demo [Some "wrong"; Some "wrong"; None]))
    = Raise (RN2483InvalidResponse
               (Lists ["wrong"; "wrong"] ["ok"; "accepted"])).
Proof. reflexivity. Qed.

Example test_execute_multiple_no_response :
  fst (execute_multiple 2 "mac join otaa" true ["ok"; "accepted"] (demo []))
    = Raise RN2483NoResponseError.
Proof. reflexivity. Qed.

(** ** The runtime functions *)

Lemma lstrip_spaces (ws s : str) :
  Forall (fun a => is_space a = true) (list_ascii_of_string ws) ->
  lstrip (ws ++ s) = lstrip s.
Proof.
  induction ws as [|a ws IH]; simpl; intros H.
  - reflexivity.
  - inversion H as [|? ? Ha Hws]; subst. rewrite Ha. auto.
Qed.

Lemma rstrip_spaces (ws : str) :
  Forall (fun a => is_space a = true) (list_ascii_of_string ws) ->
  rstrip ws = EmptyString.
Proof.
  induction ws as [|a ws IH]; simpl; intros H.
  - reflexivity.
  - inversion H as [|? ? Ha Hws]; subst. rewrite (IH Hws), Ha. reflexivity.
Qed.

Lemma rstrip_text (s ws : str) :
  ends_in_text s = true ->
  Forall (fun a => is_space a = true) (list_ascii_of_string ws) ->
  rstrip (s ++ ws) = s.
Proof.
  induction s as [|a s IH]; simpl; intros Hs Hws.
  - discriminate.
  - destruct s as [|b s].
    + simpl. rewrite (rstrip_spaces ws Hws).
      destruct (is_space a); [discriminate | reflexivity].
    + specialize (IH Hs Hws). rewrite IH. reflexivity.
Qed.

(** [strip] removes the whitespace before and after a text that starts and
    ends with something else. *)
Lemma strip_spec (lead core trail : str) (c : ascii) :
  Forall (fun a => is_space a = true) (list_ascii_of_string lead) ->
  Forall (fun a => is_space a = true) (list_ascii_of_string trail) ->
  is_space c = false ->
  ends_in_text (String c core) = true ->
  strip (lead ++ String c core ++ trail) = String c core.
Proof.
  intros Hl Ht Hc He. unfold strip.
  rewrite (lstrip_spaces lead _ Hl).
  change (String c core ++ trail) with (String c (core ++ trail)).
  cbn [lstrip]. rewrite Hc.
  change (String c (core ++ trail)) with (String c core ++ trail).
  apply rstrip_text; assumption.
Qed.

Lemma hex_digit_ascii (n : N) : lead_need (N_of_ascii (hex_digit n)) = Some 0.
Proof.
  unfold hex_digit. generalize (N.to_nat n) as k. intros k.
  do 16 (destruct k as [|k]; [reflexivity|]). destruct k; reflexivity.
Qed.

Lemma utf8_check_hexlify (b : bytes) : utf8_check (hexlify b) = true.
Proof.
  unfold utf8_check. induction b as [|a b IH].
  - reflexivity.
  - cbn [hexlify utf8_check_from]. rewrite !hex_digit_ascii. exact IH.
Qed.

Lemma decode_hexlify (b : bytes) : decode_utf8 (hexlify b) = Some (hexlify b).
Proof. unfold decode_utf8. rewrite utf8_check_hexlify. reflexivity. Qed.

Lemma hexlify_length (b : bytes) :
  String.length (hexlify b) = 2 * String.length b.
Proof. induction b as [|a b IH]; simpl; [reflexivity | rewrite IH; lia]. Qed.

Lemma hex_digit_lowercase (n : N) :
  In (hex_digit n) (list_ascii_of_string "0123456789abcdef").
Proof.
  unfold hex_digit. generalize (N.to_nat n) as k. intros k.
  do 16 (destruct k as [|k]; [cbn; tauto|]). destruct k; cbn; tauto.
Qed.

Lemma hexlify_lowercase (b : bytes) :
  Forall (fun a => In a (list_ascii_of_string "0123456789abcdef"))
    (list_ascii_of_string (hexlify b)).
Proof.
  induction b as [|a b IH]; cbn [hexlify list_ascii_of_string].
  - constructor.
  - constructor; [apply hex_digit_lowercase|].
    constructor; [apply hex_digit_lowercase | exact IH].
Qed.

Lemma list_eqb_eq (l1 l2 : list str) : list_eqb l1 l2 = true <-> l1 = l2.
Proof.
  unfold list_eqb. destruct (list_eq_dec string_dec l1 l2); split;
    congruence.
Qed.

Lemma list_eqb_neq (l1 l2 : list str) : list_eqb l1 l2 = false <-> l1 <> l2.
Proof.
  unfold list_eqb. destruct (list_eq_dec string_dec l1 l2); split;
    congruence.
Qed.

(** ** States *)

Lemma log_advance e n evs self :
  log e (advance n evs self) = advance n (evs ++ [e]) self.
Proof. unfold log, advance; simpl. now rewrite <- app_assoc. Qed.

Lemma consume_advance n evs self :
  consume (advance n evs self) = advance (S n) evs self.
Proof. reflexivity. Qed.

Lemma advance_advance n m evs evs' self :
  advance n evs' (advance m evs self) = advance (n + m) (evs ++ evs') self.
Proof.
  unfold advance; simpl. now rewrite <- app_assoc, Nat.add_assoc.
Qed.

Lemma advance_set_hw_eui n evs v self :
  advance n evs (set_hw_eui v self) = set_hw_eui v (advance n evs self).
Proof. reflexivity. Qed.

Lemma writes_of_app t1 t2 :
  writes_of (t1 ++ t2) = (writes_of t1 ++ writes_of t2)%list.
Proof.
  induction t1 as [|e t1 IH]; simpl; [reflexivity|].
  destruct e; simpl; now rewrite IH.
Qed.

(** ** [execute] *)

Lemma execute_run command validate valid self :
  execute command validate valid self =
  let got := rx self (reads self) in
  let self' := advance 1 (exchange command 100 got) self in
  match got with
  | Some (String a b) =>
      match decode_utf8 (String a b) with
      | None => (Raise UnicodeError, self')
      | Some text =>
          if validate && negb (strip text =? valid) then
            (Raise (RN2483InvalidResponse (execute_message (strip text) valid)),
             self')
          else (Return (strip text), advance 0 [Feed] self')
      end
  | _ => (Raise RN2483NoResponseError, self')
  end.
Proof.
  unfold execute, bind, wdt_feed, uart_write, sleep_ms, uart_readline, decode,
    raise, ret, encode_utf8.
  change (log Feed self) with (advance 0 [Feed] self).
  rewrite !log_advance, consume_advance, !log_advance. cbn [app].
  cbn [rx reads advance Nat.add].
  destruct (rx self (reads self)) as [[|a b]|]; cbn [truthy negb]; try reflexivity.
  destruct (decode_utf8 (String a b)) as [text|]; [|reflexivity].
  destruct (validate && negb (strip text =? valid)); reflexivity.
Qed.

Lemma received_iff (r : option bytes) (decoded : str) :
  received r = Some decoded <->
  exists b text,
    r = Some b /\ b <> EmptyString /\ decode_utf8 b = Some text /\
    decoded = strip text.
Proof.
  split.
  - destruct r as [[|a b]|]; simpl; try discriminate.
    destruct (decode_utf8 (String a b)) as [text|] eqn:E; simpl; [|discriminate].
    intros [= <-]. exists (String a b), text. repeat split; congruence.
  - intros (b & text & -> & Hb & Hd & ->).
    destruct b as [|a b]; [congruence|]. simpl. now rewrite Hd.
Qed.

Lemma received_truthy (r : option bytes) (decoded : str) :
  received r = Some decoded -> truthy r = true.
Proof. destruct r as [[|a b]|]; simpl; congruence. Qed.

(** A read that brings a line [decoded]. *)
Lemma execute_received command validate valid self decoded :
  received (rx self (reads self)) = Some decoded ->
  execute command validate valid self =
  if validate && negb (decoded =? valid) then
    (Raise (RN2483InvalidResponse (execute_message decoded valid)),
     advance 1 (exchange command 100 (rx self (reads self))) self)
  else
    (Return decoded,
     advance 1 (exchange command 100 (rx self (reads self)) ++ [Feed]) self).
Proof.
  intros H. rewrite execute_run. cbv zeta.
  destruct (rx self (reads self)) as [[|a b]|]; simpl in H; try discriminate.
  destruct (decode_utf8 (String a b)) as [text|]; simpl in H; [|discriminate].
  injection H as <-.
  destruct (validate && negb (strip text =? valid)); [reflexivity|].
  now rewrite advance_advance.
Qed.

(** A read that brings nothing. *)
Lemma execute_silent command validate valid self :
  truthy (rx self (reads self)) = false ->
  execute command validate valid self =
  (Raise RN2483NoResponseError,
   advance 1 (exchange command 100 (rx self (reads self))) self).
Proof.
  intros H. rewrite execute_run. cbv zeta.
  destruct (rx self (reads self)) as [[|a b]|]; simpl in H;
    try discriminate; reflexivity.
Qed.

(** A read that brings bytes which are not UTF-8. *)
Lemma execute_garbled command validate valid self :
  truthy (rx self (reads self)) = true ->
  received (rx self (reads self)) = None ->
  execute command validate valid self =
  (Raise UnicodeError,
   advance 1 (exchange command 100 (rx self (reads self))) self).
Proof.
  intros Ht H. rewrite execute_run. cbv zeta.
  destruct (rx self (reads self)) as [[|a b]|]; simpl in Ht, H;
    try discriminate.
  destruct (decode_utf8 (String a b)); simpl in H; [discriminate | reflexivity].
Qed.

(** Whatever is read, [execute] performs the same exchange: one write of the
    command line and one read. *)
Lemma execute_exchange command validate valid self :
  exists tail,
    snd (execute command validate valid self) =
    advance 1 (exchange command 100 (rx self (reads self)) ++ tail) self /\
    (tail = [] \/ tail = [Feed]).
Proof.
  rewrite execute_run. cbv zeta.
  destruct (rx self (reads self)) as [[|a b]|].
  1,3: exists []; rewrite app_nil_r; auto.
  destruct (decode_utf8 (String a b)) as [text|].
  2: exists []; rewrite app_nil_r; auto.
  destruct (validate && negb (strip text =? valid)).
  - exists []; rewrite app_nil_r; auto.
  - exists [Feed]. rewrite advance_advance. auto.
Qed.

(** C4, amended.  For every command, expected token and serial line:
    [execute] raises [RN2483NoResponseError] exactly when the read returns
    nothing ([None] or an empty byte string).  When the read returns bytes
    that decode as UTF-8, the decoded text is stripped of whitespace at both
    ends (not only of the trailing line ending); with [validate = true],
    [RN2483InvalidResponse] is raised, with a message built from the
    stripped text and the expected token, exactly when the two differ; the
    stripped text is returned exactly when validation is off or the two are
    equal, so with [validate = false] it is returned whatever it is. *)
Theorem execute_single_response command validate valid self :
  let got := rx self (reads self) in
  let outcome := fst (execute command validate valid self) in
  (outcome = Raise RN2483NoResponseError <-> truthy got = false) /\
  (forall b text,
      got = Some b -> b <> EmptyString -> decode_utf8 b = Some text ->
      let decoded := strip text in
      (outcome = Raise (RN2483InvalidResponse
                          (Text ("The response " ++ decoded ++
                                 " didn't match the exptected " ++ valid ++ "!")))
       <-> validate = true /\ decoded <> valid) /\
      (outcome = Return decoded <-> validate = false \/ decoded = valid)).
Proof.
  cbv zeta. split.
  - rewrite execute_run. cbv zeta.
    destruct (rx self (reads self)) as [[|a b]|]; simpl.
    1,3: split; intros; reflexivity.
    destruct (decode_utf8 (String a b)) as [text|]; simpl.
    2: split; discriminate.
    destruct (validate && negb (strip text =? valid)); simpl; split; discriminate.
  - intros b text Hgot Hb Hd.
    assert (Hr : received (rx self (reads self)) = Some (strip text)).
    { apply received_iff. exists b, text. auto. }
    rewrite (execute_received _ _ _ _ _ Hr).
    fold (execute_message (strip text) valid).
    destruct validate; simpl.
    + destruct (String.eqb_spec (strip text) valid) as [E|E]; simpl;
        intuition congruence.
    + intuition congruence.
Qed.

(** C4 as stated fails: the claim strips the trailing whitespace only.
    The line below starts with two spaces; with those kept, the text
    differs from ["ok"] and validation would raise.  The code strips both
    ends and returns ["ok"]. *)
Lemma execute_strips_leading_whitespace :
  let self := demo [line "  ok"] in
  rstrip ("  ok" ++ CRLF) = "  ok" /\
  "  ok" <> "ok" /\
  fst (execute "mac save" true "ok" self) = Return "ok" /\
  fst (execute "mac save" false "ok" self) = Return "ok".
Proof. cbv zeta. repeat split. discriminate. Qed.

(** C5.  For every [ms] from 100 to 4294967296, [sys_sleep] writes exactly
    the bytes of ["sys sleep {ms}\r\n"], feeds the watchdog, reads nothing
    and returns; for every other [ms] it raises [RN2483InvalidInput] and
    leaves the instance and the serial line untouched. *)
Theorem sys_sleep_spec (ms : Z) self :
  ((100 <= ms <= 4294967296)%Z ->
   sys_sleep ms self =
   (Return tt,
    advance 0 [Write ("sys sleep " ++ str_of_int ms ++ CRLF); Feed] self)) /\
  ((ms < 100 \/ ms > 4294967296)%Z ->
   sys_sleep ms self =
   (Raise (RN2483InvalidInput
             "The length to sleep must be between 100 and 4294967296!"),
    self)).
Proof.
  unfold sys_sleep. split; intros H.
  - replace ((ms <? 100) || (ms >? 4294967296))%Z with false
      by (symmetry; apply orb_false_iff; split; lia).
    unfold bind, uart_write, wdt_feed, encode_utf8.
    change (log (Write ("sys sleep " ++ str_of_int ms ++ CRLF)) self)
      with (advance 0 [Write ("sys sleep " ++ str_of_int ms ++ CRLF)] self).
    now rewrite log_advance.
  - replace ((ms <? 100) || (ms >? 4294967296))%Z with true
      by (symmetry; apply orb_true_iff; lia).
    reflexivity.
Qed.

(** ** Commands built on [execute] *)

Lemma bind_ret_tt {A} (c : M A) self :
  (c ;; ret tt) self =
  (match fst (c self) with
   | Return _ => Return tt
   | Raise e => Raise e
   | OutOfFuel => OutOfFuel
   end, snd (c self)).
Proof. unfold bind, ret. destruct (c self) as [[a|e|] s']; reflexivity. Qed.

Lemma execute_writes command validate valid self :
  writes_after self (snd (execute command validate valid self))
    [command ++ CRLF].
Proof.
  unfold writes_after.
  destruct (execute_exchange command validate valid self) as (tail & -> & Ht).
  cbn [trace advance]. rewrite !writes_of_app.
  destruct Ht as [-> | ->]; reflexivity.
Qed.

Lemma execute_reads command validate valid self :
  reads (snd (execute command validate valid self)) = S (reads self).
Proof.
  destruct (execute_exchange command validate valid self) as (tail & -> & _).
  reflexivity.
Qed.

(** A command whose single response is validated against ["ok"]. *)
Lemma ok_command_spec command self :
  let run := (execute command true "ok" ;; ret tt) self in
  let got := rx self (reads self) in
  writes_after self (snd run) [command ++ CRLF] /\
  reads (snd run) = S (reads self) /\
  (fst run = Return tt <-> received got = Some "ok") /\
  (forall decoded,
      received got = Some decoded -> decoded <> "ok" ->
      fst run = Raise (RN2483InvalidResponse (execute_message decoded "ok"))).
Proof.
  cbv zeta. rewrite bind_ret_tt. cbn [fst snd].
  split; [apply execute_writes|]. split; [apply execute_reads|].
  destruct (received (rx self (reads self))) as [decoded|] eqn:Hr.
  - rewrite (execute_received _ _ _ _ _ Hr). cbn [andb].
    destruct (String.eqb_spec decoded "ok") as [->|N]; cbn [negb fst].
    + split; [tauto|]. intros d [= <-] N. contradiction.
    + split; [split; [discriminate | congruence]|].
      intros d [= <-] _. reflexivity.
  - split; [|discriminate].
    split; [|discriminate].
    destruct (truthy (rx self (reads self))) eqn:Ht.
    + rewrite (execute_garbled _ _ _ _ Ht Hr). discriminate.
    + rewrite (execute_silent _ _ _ _ Ht). discriminate.
Qed.

(** C6.  [mac_set_appeui] with an argument that is not 16 characters long
    and [mac_set_appkey] with one that is not 32 characters long raise
    [RN2483InvalidInput] and leave the serial line untouched.  With the
    required lengths they write ["mac set appeui {eui}\r\n"], respectively
    ["mac set appkey {key}\r\n"], read one response and return exactly when
    it is ["ok"]; any other text raises [RN2483InvalidResponse]. *)
Theorem mac_set_appeui_appkey_spec (appeui appkey : str) self :
  let got := rx self (reads self) in
  (len appeui <> 16 ->
   mac_set_appeui appeui self =
   (Raise (RN2483InvalidInput
             "The AppEUI needs to be exact 16 characters long!"), self)) /\
  (len appkey <> 32 ->
   mac_set_appkey appkey self =
   (Raise (RN2483InvalidInput
             "The AppKey needs to be exact 32 characters long!"), self)) /\
  (len appeui = 16 ->
   let run := mac_set_appeui appeui self in
   writes_after self (snd run) ["mac set appeui " ++ appeui ++ CRLF] /\
   reads (snd run) = S (reads self) /\
   (fst run = Return tt <-> received got = Some "ok") /\
   (forall decoded, received got = Some decoded -> decoded <> "ok" ->
      fst run = Raise (RN2483InvalidResponse (execute_message decoded "ok")))) /\
  (len appkey = 32 ->
   let run := mac_set_appkey appkey self in
   writes_after self (snd run) ["mac set appkey " ++ appkey ++ CRLF] /\
   reads (snd run) = S (reads self) /\
   (fst run = Return tt <-> received got = Some "ok") /\
   (forall decoded, received got = Some decoded -> decoded <> "ok" ->
      fst run = Raise (RN2483InvalidResponse (execute_message decoded "ok")))).
Proof.
  cbv zeta. unfold mac_set_appeui, mac_set_appkey.
  split; [|split; [|split]].
  - intros H. apply Nat.eqb_neq in H. now rewrite H.
  - intros H. apply Nat.eqb_neq in H. now rewrite H.
  - intros H. rewrite H. cbn [Nat.eqb negb].
    exact (ok_command_spec ("mac set appeui " ++ appeui) self).
  - intros H. rewrite H. cbn [Nat.eqb negb].
    exact (ok_command_spec ("mac set appkey " ++ appkey) self).
Qed.

(** C7.  For every string [data], [send] writes exactly the bytes of
    ["mac tx uncnf 1 {hex}\r\n"], where [hex] is the lowercase hexadecimal
    encoding of the UTF-8 bytes of [data] (two digits among [0-9a-f] per
    byte), and reads one response that it does not validate: it returns as
    soon as a line was received, whatever its text, and never raises
    [RN2483InvalidResponse].  [send("PeterMaffay")] writes
    ["mac tx uncnf 1 50657465724d6166666179\r\n"]. *)
Theorem send_spec (data : str) self :
  let run := send data self in
  writes_after self (snd run)
    ["mac tx uncnf 1 " ++ hexlify (encode_utf8 data) ++ CRLF] /\
  reads (snd run) = S (reads self) /\
  (fst run = Return tt <-> exists text, received (rx self (reads self)) = Some text) /\
  (forall m, fst run <> Raise (RN2483InvalidResponse m)) /\
  String.length (hexlify (encode_utf8 data)) = 2 * String.length (encode_utf8 data) /\
  Forall (fun a => In a (list_ascii_of_string "0123456789abcdef"))
    (list_ascii_of_string (hexlify (encode_utf8 data))) /\
  writes_of (trace (snd (send "PeterMaffay" (demo [line "ok"])))) =
    ["mac tx uncnf 1 50657465724d6166666179" ++ CRLF].
Proof.
  cbv zeta. unfold send, decode.
  rewrite decode_hexlify.
  change ((buffer <- ret (hexlify (encode_utf8 data)) ;;
           execute ("mac tx uncnf 1 " ++ buffer) false "ok" ;; ret tt) self)
    with ((execute ("mac tx uncnf 1 " ++ hexlify (encode_utf8 data)) false "ok"
           ;; ret tt) self).
  rewrite bind_ret_tt. cbn [fst snd].
  split; [apply execute_writes|]. split; [apply execute_reads|].
  split; [|split; [|split; [apply hexlify_length|
                            split; [apply hexlify_lowercase | reflexivity]]]].
  - destruct (received (rx self (reads self))) as [text|] eqn:Hr.
    + rewrite (execute_received _ _ _ _ _ Hr). cbn. split; eauto.
    + destruct (truthy (rx self (reads self))) eqn:Ht.
      * rewrite (execute_garbled _ _ _ _ Ht Hr). cbn.
        split; [discriminate | intros [? ?]; discriminate].
      * rewrite (execute_silent _ _ _ _ Ht). cbn.
        split; [discriminate | intros [? ?]; discriminate].
  - intros m.
    destruct (received (rx self (reads self))) as [text|] eqn:Hr.
    + rewrite (execute_received _ _ _ _ _ Hr). cbn. discriminate.
    + destruct (truthy (rx self (reads self))) eqn:Ht.
      * rewrite (execute_garbled _ _ _ _ Ht Hr). cbn. discriminate.
      * rewrite (execute_silent _ _ _ _ Ht). cbn. discriminate.
Qed.

(** ** The hardware-EUI query *)

Lemma sys_get_hweui_received self decoded :
  received (rx self (reads self)) = Some decoded ->
  sys_get_hweui self =
  (Return decoded,
   set_hw_eui decoded (advance 1 (hweui_query (rx self (reads self))) self)).
Proof.
  intros Hr. unfold sys_get_hweui, bind at 1.
  rewrite (execute_received _ _ _ _ _ Hr). cbn [andb].
  reflexivity.
Qed.

Lemma sys_get_hweui_failed self :
  received (rx self (reads self)) = None ->
  sys_get_hweui self =
  (Raise (if truthy (rx self (reads self)) then UnicodeError
          else RN2483NoResponseError),
   advance 1 (exchange "sys get hweui" 100 (rx self (reads self))) self).
Proof.
  intros Hr. unfold sys_get_hweui, bind at 1.
  destruct (truthy (rx self (reads self))) eqn:Ht.
  - now rewrite (execute_garbled _ _ _ _ Ht Hr).
  - now rewrite (execute_silent _ _ _ _ Ht).
Qed.

(** ** [execute_multiple] *)

Lemma read_loop_step fuel b results self :
  read_loop (S fuel) (Some b) results self =
  let got := rx self (reads self) in
  let self' := advance 1 (loop_pass got) self in
  match got with
  | Some (String a c) =>
      match decode_utf8 (String a c) with
      | Some text => read_loop fuel got (results ++ [strip text]) self'
      | None => (Raise UnicodeError, self')
      end
  | _ => read_loop fuel got results self'
  end.
Proof.
  cbn [read_loop].
  unfold bind, wdt_feed, sleep_ms, uart_readline, decode, raise, ret.
  change (log Feed self) with (advance 0 [Feed] self).
  rewrite !log_advance, consume_advance, !log_advance.
  cbn [app rx reads advance Nat.add].
  fold (loop_pass (rx self (reads self))).
  destruct (rx self (reads self)) as [[|a c]|]; cbn [truthy]; try reflexivity.
  destruct (decode_utf8 (String a c)); reflexivity.
Qed.

Lemma read_loop_done fuel results self :
  read_loop fuel None results self = (Return results, self).
Proof. destruct fuel; reflexivity. Qed.

Lemma advance_eq n m evs evs' self :
  n = m -> evs = evs' -> advance n evs self = advance m evs' self.
Proof. now intros -> ->. Qed.

(** The loop runs until the first read that times out; reads that carry no
    data in between are skipped. *)
Lemma read_loop_until_timeout rs :
  forall fuel b results self lines,
    next_reads (rx self) (reads self) (rs ++ [None]) ->
    Forall (fun r => r <> None) rs ->
    gather rs = Some lines ->
    length rs < fuel ->
    read_loop fuel (Some b) results self =
    (Return (results ++ lines)%list,
     advance (S (length rs)) (flat_map loop_pass (rs ++ [None])) self).
Proof.
  induction rs as [|r rs IH]; intros fuel b results self lines Hn Hs Hg Hf;
    (destruct fuel as [|fuel]; [cbn in Hf; lia|]); rewrite read_loop_step;
    cbv zeta; cbn in Hn; destruct Hn as [H0 Hn].
  - rewrite H0, read_loop_done. injection Hg as <-.
    rewrite app_nil_r. reflexivity.
  - inversion Hs as [|? ? Hr Hs']; subst.
    destruct (rx self (reads self)) as [[|a c]|] eqn:E; [| |congruence].
    + cbn in Hg.
      etransitivity;
        [apply (IH fuel EmptyString results
                  (advance 1 (loop_pass (Some EmptyString)) self) lines Hn Hs' Hg);
         cbn in Hf; lia|].
      rewrite advance_advance. f_equal. apply advance_eq; [cbn; lia|].
      reflexivity.
    + cbn [gather truthy received] in Hg.
      destruct (decode_utf8 (String a c)) as [text|]; cbn in Hg;
        [|discriminate].
      destruct (gather rs) as [ts|] eqn:G; [|discriminate].
      injection Hg as <-.
      etransitivity;
        [apply (IH fuel (String a c) (results ++ [strip text])%list
                  (advance 1 (loop_pass (Some (String a c))) self) ts Hn Hs' eq_refl);
         cbn in Hf; lia|].
      rewrite advance_advance, <- app_assoc. f_equal.
      apply advance_eq; [cbn; lia | reflexivity].
Qed.

(** The loop never raises [RN2483NoResponseError] or
    [RN2483InvalidResponse]. *)
Lemma read_loop_raises fuel :
  forall r results self e,
    fst (read_loop fuel r results self) = Raise e -> e = UnicodeError.
Proof.
  induction fuel as [|fuel IH]; intros [b|] results self e.
  - discriminate.
  - discriminate.
  - rewrite read_loop_step. cbv zeta.
    destruct (rx self (reads self)) as [[|a c]|]; try apply IH.
    destruct (decode_utf8 (String a c)); [apply IH|].
    cbn. congruence.
  - discriminate.
Qed.

Lemma execute_multiple_run fuel command validate valid self :
  execute_multiple fuel command validate valid self =
  let got := rx self (reads self) in
  let self' := advance 1 (exchange command 5000 got) self in
  match received got with
  | Some decoded =>
      match read_loop fuel got [decoded] self' with
      | (Return results, final) =>
          if validate && negb (list_eqb results valid) then
            (Raise (RN2483InvalidResponse (Lists results valid)), final)
          else (Return results, final)
      | (Raise e, final) => (Raise e, final)
      | (OutOfFuel, final) => (OutOfFuel, final)
      end
  | None =>
      (Raise (if truthy got then UnicodeError else RN2483NoResponseError),
       self')
  end.
Proof.
  unfold execute_multiple.
  unfold bind at 1 2 3 4 5.
  unfold wdt_feed, uart_write, sleep_ms, uart_readline, encode_utf8.
  change (log Feed self) with (advance 0 [Feed] self).
  rewrite !log_advance, consume_advance, !log_advance.
  cbn [app rx reads advance Nat.add].
  fold (exchange command 5000 (rx self (reads self))).
  cbv zeta.
  destruct (rx self (reads self)) as [[|a b]|]; cbn [truthy negb received];
    try reflexivity.
  unfold decode, bind.
  destruct (decode_utf8 (String a b)) as [text|]; cbn [option_map]; [|reflexivity].
  unfold ret at 1.
  match goal with
  | |- context [read_loop ?f ?r ?l ?s] =>
      destruct (read_loop f r l s) as [[results|e|] final]
  end; try reflexivity.
  destruct (validate && negb (list_eqb results valid)); reflexivity.
Qed.

Lemma execute_multiple_silent fuel command validate valid self :
  fst (execute_multiple fuel command validate valid self)
    = Raise RN2483NoResponseError
  <-> truthy (rx self (reads self)) = false.
Proof.
  rewrite execute_multiple_run. cbv zeta.
  destruct (received (rx self (reads self))) as [decoded|] eqn:Hr.
  - rewrite (received_truthy _ _ Hr).
    match goal with
    | |- context [read_loop ?f ?r ?l ?s] =>
        pose proof (read_loop_raises f r l s) as Hl;
        destruct (read_loop f r l s) as [[results|e|] final]
    end; cbn [fst] in *.
    + destruct (validate && negb (list_eqb results valid));
        split; discriminate.
    + split; [|discriminate]. intros [= ->].
      specialize (Hl _ eq_refl). discriminate.
    + split; discriminate.
  - cbn [fst]. destruct (truthy (rx self (reads self)));
      split; congruence.
Qed.

Lemma execute_multiple_lines fuel command validate valid self first rest lines :
  next_reads (rx self) (reads self) (first :: rest ++ [None]) ->
  truthy first = true ->
  Forall (fun r => r <> None) rest ->
  gather (first :: rest) = Some lines ->
  length rest < fuel ->
  reads (snd (execute_multiple fuel command validate valid self))
    = reads self + length rest + 2 /\
  (fst (execute_multiple fuel command validate valid self)
     = Raise (RN2483InvalidResponse (Lists lines valid))
   <-> validate = true /\ lines <> valid) /\
  (fst (execute_multiple fuel command validate valid self) = Return lines
   <-> validate = false \/ lines = valid).
Proof.
  intros [H0 Hn] Ht Hs Hg Hf.
  rewrite execute_multiple_run. cbv zeta. rewrite H0.
  cbn [gather] in Hg. rewrite Ht in Hg.
  destruct (received first) as [decoded|] eqn:Hr; [|discriminate].
  destruct (gather rest) as [ts|] eqn:G; [|discriminate].
  injection Hg as <-.
  destruct first as [b|]; [|discriminate].
  erewrite read_loop_until_timeout; eauto.
  cbn [app].
  destruct validate; cbn [andb].
  - destruct (list_eqb (decoded :: ts) valid) eqn:L; cbn [negb fst snd].
    + apply list_eqb_eq in L. cbn. split; [lia|]. intuition congruence.
    + apply list_eqb_neq in L. cbn. split; [lia|]. intuition congruence.
  - cbn. split; [lia|]. intuition congruence.
Qed.

(** C1, amended.  For every command: [execute_multiple] raises
    [RN2483NoResponseError] if and only if the very first read returns no
    data ([None] or an empty byte string).  After a first line, the loop
    stops at the first read that times out ([None]); reads that return an
    empty byte string before it are skipped.  The accumulated sequence is
    the decoded, stripped text of the reads that carried data, in order;
    with [validate = true], [RN2483InvalidResponse] is raised exactly when
    that sequence differs from the expected one (as lists), and otherwise
    the sequence is returned.  Reading an empty line, then ["accepted"],
    then nothing yields the empty text followed by ["accepted"]. *)
Theorem execute_multiple_spec fuel command validate valid self :
  (fst (execute_multiple fuel command validate valid self)
     = Raise RN2483NoResponseError
   <-> truthy (rx self (reads self)) = false) /\
  (forall first rest lines,
      next_reads (rx self) (reads self) (first :: rest ++ [None]) ->
      truthy first = true ->
      Forall (fun r => r <> None) rest ->
      gather (first :: rest) = Some lines ->
      length rest < fuel ->
      reads (snd (execute_multiple fuel command validate valid self))
        = reads self + length rest + 2 /\
      (fst (execute_multiple fuel command validate valid self)
         = Raise (RN2483InvalidResponse (Lists lines valid))
       <-> validate = true /\ lines <> valid) /\
      (fst (execute_multiple fuel command validate valid self) = Return lines
       <-> validate = false \/ lines = valid)) /\
  fst (execute_multiple 2 "mac join otaa" true [EmptyString; "accepted"]
         (demo [Some CRLF; line "accepted"; None]))
    = Return [EmptyString; "accepted"].
Proof.
  split; [apply execute_multiple_silent|].
  split; [|reflexivity].
  intros first rest lines. apply execute_multiple_lines.
Qed.

(** C1 as stated fails: the claim has the first empty read stop the loop.
    Here the second read returns an empty byte string; stopping there would
    leave [["ok"]] and fail validation, which is what the loop of the
    specification does.  The code skips the empty read, reads on and
    returns [["ok", "accepted"]]. *)
Lemma execute_multiple_skips_empty_reads :
  let self := demo [line "ok"; Some EmptyString; line "accepted"; None] in
  truthy (rx self 1) = false /\
  fst (execute_multiple 3 "mac join otaa" true ["ok"; "accepted"] self)
    = Return ["ok"; "accepted"] /\
  reads (snd (execute_multiple 3 "mac join otaa" true ["ok"; "accepted"] self))
    = 4 /\
  fst (execute_multiple_as_specified 3 "mac join otaa" true ["ok"; "accepted"]
         self)
    = Raise (RN2483InvalidResponse (Lists ["ok"] ["ok"; "accepted"])).
Proof. cbv zeta. repeat split. Qed.

(** *** When the read loop ends *)

Lemma next_reads_app f p l1 l2 :
  next_reads f p (l1 ++ l2) <->
  next_reads f p l1 /\ next_reads f (length l1 + p) l2.
Proof.
  revert p. induction l1 as [|r l1 IH]; intros p; cbn.
  - tauto.
  - rewrite IH. replace (length l1 + S p) with (S (length l1 + p)) by lia.
    tauto.
Qed.

Lemma next_reads_map_seq f p n : next_reads f p (map f (seq p n)).
Proof. revert p. induction n as [|n IH]; intros p; cbn; auto. Qed.

(** The first read that times out, if any read does. *)
Lemma first_timeout (f : nat -> option bytes) n :
  forall p,
    f (n + p) = None ->
    exists m, m <= n /\ f (m + p) = None /\
              forall i, i < m -> f (i + p) <> None.
Proof.
  induction n as [|n IH]; intros p H.
  - exists 0. repeat split; auto. intros i Hi. lia.
  - destruct (f p) as [b|] eqn:E.
    + replace (S n + p) with (n + S p) in H by lia.
      destruct (IH (S p) H) as (m & Hm & Hnone & Hbefore).
      exists (S m). split; [lia|]. split.
      * now replace (S m + p) with (m + S p) by lia.
      * intros [|i] Hi; [cbn; congruence|].
        replace (S i + p) with (i + S p) by lia. apply Hbefore. lia.
    + exists 0. repeat split; auto; [lia|]. intros i Hi. lia.
Qed.

Lemma gather_utf8 rs :
  Forall (fun r => forall b, r = Some b -> utf8_check b = true) rs ->
  exists lines, gather rs = Some lines.
Proof.
  induction rs as [|r rs IH]; intros H; cbn.
  - eauto.
  - inversion H as [|? ? Hr Hrs]; subst.
    destruct (IH Hrs) as [ts ->].
    destruct r as [[|a b]|]; cbn; eauto.
    unfold decode_utf8. rewrite (Hr _ eq_refl). cbn. eauto.
Qed.

(** If the loop comes to an end on a line that only carries UTF-8, one of
    the reads it made timed out. *)
Lemma read_loop_needs_timeout fuel :
  forall b results self,
    utf8_line (rx self) ->
    fst (read_loop fuel (Some b) results self) <> OutOfFuel ->
    exists n, rx self (n + reads self) = None.
Proof.
  induction fuel as [|fuel IH]; intros b results self Hu H.
  - cbn in H. congruence.
  - rewrite read_loop_step in H. cbv zeta in H.
    destruct (rx self (reads self)) as [[|a c]|] eqn:E.
    + destruct (IH _ _ (advance 1 (loop_pass (Some EmptyString)) self) Hu H)
        as [n Hn]. exists (S n).
      cbn in Hn. now replace (S n + reads self) with (n + S (reads self)) by lia.
    + unfold decode_utf8 in H. rewrite (Hu _ _ E) in H.
      destruct (IH _ _ (advance 1 (loop_pass (Some (String a c))) self) Hu H)
        as [n Hn]. exists (S n).
      cbn in Hn. now replace (S n + reads self) with (n + S (reads self)) by lia.
    + exists 0. exact E.
Qed.

Lemma utf8_line_script answers :
  Forall (fun r => forall b, r = Some b -> utf8_check b = true) answers ->
  utf8_line (script answers).
Proof.
  intros H n. unfold script. revert n.
  induction H as [|r rs Hr _ IH]; intros [|n] b; cbn; try discriminate.
  - apply Hr.
  - apply IH.
Qed.

(** A line that answers ["ok"] and then returns empty byte strings for
    ever. *)
Lemma silent_after_ok_utf8 :
  utf8_line (fun n => match n with 0 => line "ok" | S _ => Some EmptyString end).
Proof. intros [|n] b [= <-]; reflexivity. Qed.

(** The loop comes to an end when one of its reads times out or brings
    bytes that do not decode. *)
Lemma read_loop_ends fuel :
  forall n b results self,
    rx self (n + reads self) = None \/
    undecodable (rx self (n + reads self)) = true ->
    n < fuel ->
    fst (read_loop fuel (Some b) results self) <> OutOfFuel.
Proof.
  induction fuel as [|fuel IH]; intros n b results self H Hf; [lia|].
  rewrite read_loop_step. cbv zeta.
  assert (Hnext : forall got m,
    rx self (S m + reads self) = None \/
    undecodable (rx self (S m + reads self)) = true ->
    rx (advance 1 (loop_pass got) self)
       (m + reads (advance 1 (loop_pass got) self)) = None \/
    undecodable (rx (advance 1 (loop_pass got) self)
                    (m + reads (advance 1 (loop_pass got) self))) = true).
  { intros got m Hm. cbn [rx reads advance].
    now replace (m + (1 + reads self)) with (S m + reads self) by lia. }
  destruct (rx self (reads self)) as [[|a c]|] eqn:E.
  - destruct n as [|n].
    + cbn [Nat.add] in H. rewrite E in H. destruct H; discriminate.
    + apply (IH n); [now apply Hnext | lia].
  - unfold decode_utf8. destruct (utf8_check (String a c)) eqn:U.
    + destruct n as [|n].
      * cbn [Nat.add] in H. rewrite E in H. cbn [undecodable] in H.
        rewrite U in H. destruct H; discriminate.
      * apply (IH n); [now apply Hnext | lia].
    + cbn. discriminate.
  - rewrite read_loop_done. cbn. discriminate.
Qed.

(** If the loop comes to an end, one of the reads it made timed out or
    brought bytes that do not decode. *)
Lemma read_loop_needs_end fuel :
  forall b results self,
    fst (read_loop fuel (Some b) results self) <> OutOfFuel ->
    exists n,
      rx self (n + reads self) = None \/
      undecodable (rx self (n + reads self)) = true.
Proof.
  induction fuel as [|fuel IH]; intros b results self H.
  - cbn in H. congruence.
  - rewrite read_loop_step in H. cbv zeta in H.
    destruct (rx self (reads self)) as [[|a c]|] eqn:E.
    + destruct (IH _ _ (advance 1 (loop_pass (Some EmptyString)) self) H)
        as [n Hn]. exists (S n).
      cbn [rx reads advance] in Hn.
      now replace (S n + reads self) with (n + (1 + reads self)) by lia.
    + unfold decode_utf8 in H. destruct (utf8_check (String a c)) eqn:U.
      * destruct (IH _ _ (advance 1 (loop_pass (Some (String a c))) self) H)
          as [n Hn]. exists (S n).
        cbn [rx reads advance] in Hn.
        now replace (S n + reads self) with (n + (1 + reads self)) by lia.
      * exists 0. right. cbn [Nat.add]. rewrite E. cbn [undecodable].
        now rewrite U.
    + exists 0. left. exact E.
Qed.

(** A first read that brings no data ends [execute_multiple] at once,
    whatever the later reads would return. *)
Lemma execute_multiple_no_answer fuel command validate valid self :
  truthy (rx self (reads self)) = false ->
  execute_multiple fuel command validate valid self =
  (Raise RN2483NoResponseError,
   advance 1 (exchange command 5000 (rx self (reads self))) self).
Proof.
  intros Ht. rewrite execute_multiple_run. cbv zeta.
  destruct (rx self (reads self)) as [[|a c]|]; try discriminate; reflexivity.
Qed.

(** When [execute_multiple] comes to an end, for any serial line. *)
Lemma execute_multiple_ends command validate valid self :
  (exists fuel,
      fst (execute_multiple fuel command validate valid self) <> OutOfFuel)
  <-> truthy (rx self (reads self)) = false \/
      (exists n, undecodable (rx self (n + reads self)) = true) \/
      (exists n, rx self (S n + reads self) = None).
Proof.
  split.
  - intros [fuel H]. rewrite execute_multiple_run in H. cbv zeta in H.
    destruct (rx self (reads self)) as [[|a c]|] eqn:E;
      [left; reflexivity | | left; reflexivity].
    right. cbn [received] in H. unfold decode_utf8 in H.
    destruct (utf8_check (String a c)) eqn:U.
    + cbn [option_map] in H.
      match type of H with
      | context [read_loop ?f ?r ?l ?s] =>
          pose proof (read_loop_needs_end f (String a c) l s) as Hl;
          destruct (read_loop f r l s) as [[results|e|] final]
      end; cbn [fst] in *; [| |congruence].
      all: destruct Hl as [n Hn]; [discriminate|];
        cbn [rx reads advance] in Hn;
        replace (n + (1 + reads self)) with (S n + reads self) in Hn by lia;
        destruct Hn as [Hn|Hn]; [right; now exists n | left; now exists (S n)].
    + left. exists 0. cbn [Nat.add]. rewrite E. cbn [undecodable].
      now rewrite U.
  - intros H.
    destruct (truthy (rx self (reads self))) eqn:Ht.
    2: { exists 0. rewrite execute_multiple_no_answer by exact Ht.
         cbn. discriminate. }
    destruct H as [H|H]; [discriminate|].
    destruct (rx self (reads self)) as [[|a c]|] eqn:E; try discriminate.
    destruct (utf8_check (String a c)) eqn:U.
    + assert (Hn : exists n,
        rx self (S n + reads self) = None \/
        undecodable (rx self (S n + reads self)) = true).
      { destruct H as [[n Hn]|[n Hn]]; [|exists n; now left].
        destruct n as [|n]; [|exists n; now right].
        cbn [Nat.add] in Hn. rewrite E in Hn. cbn [undecodable] in Hn.
        rewrite U in Hn. discriminate. }
      destruct Hn as [n Hn]. exists (S n).
      rewrite execute_multiple_run. cbv zeta. rewrite E.
      cbn [received]. unfold decode_utf8. rewrite U. cbn [option_map].
      match goal with
      | |- context [read_loop ?f ?r ?l ?s] =>
          pose proof (read_loop_ends f n (String a c) l s) as Hl;
          destruct (read_loop f r l s) as [[results|e|] final]
      end; cbn [fst] in *.
      * destruct (validate && negb (list_eqb results valid)); discriminate.
      * discriminate.
      * exfalso. apply Hl; [|lia|reflexivity].
        cbn [rx reads advance].
        now replace (n + (1 + reads self)) with (S n + reads self) by lia.
    + exists 0. rewrite execute_multiple_run. cbv zeta. rewrite E.
      cbn [received]. unfold decode_utf8. rewrite U. cbn. discriminate.
Qed.

(** C9, amended.  The read loop of [execute_multiple] ends only on a read
    that returns [None] or that brings bytes which do not decode.  A read
    that returns an empty byte string adds nothing to the results and is
    followed by another pass of the loop.  So, once the first read has
    brought data and on a serial line that carries UTF-8,
    [execute_multiple] comes to an end (with some bound on the number of
    passes) exactly when some read after the first returns [None]; it then
    has made every read up to the first such one and no more.  On a line
    that answers ["ok"] and then only empty byte strings it never ends.
    When the first read brings no data, [execute_multiple] ends at once with
    [RN2483NoResponseError], whatever the later reads; and on any serial
    line it comes to an end exactly when the first read brings no data, or
    some read brings bytes that do not decode, or some read after the first
    returns [None]. *)
Theorem read_loop_ends_on_timeout_only :
  (forall fuel b results self,
      rx self (reads self) = Some EmptyString ->
      read_loop (S fuel) (Some b) results self =
      read_loop fuel (Some EmptyString) results
        (advance 1 (loop_pass (Some EmptyString)) self)) /\
  (forall command validate valid self,
      truthy (rx self (reads self)) = true ->
      utf8_line (rx self) ->
      ((exists fuel,
           fst (execute_multiple fuel command validate valid self) <> OutOfFuel)
       <-> exists n, rx self (S n + reads self) = None) /\
      (forall n,
          rx self (S n + reads self) = None ->
          (forall i, i < n -> rx self (S i + reads self) <> None) ->
          forall fuel, n < fuel ->
          reads (snd (execute_multiple fuel command validate valid self))
            = S (S n) + reads self)) /\
  (forall fuel,
      fst (execute_multiple fuel "mac join otaa" true ["ok"; "accepted"]
             (boot (fun n => match n with
                             | 0 => line "ok"
                             | S _ => Some EmptyString
                             end) "0123456789012345"
                "01234567890123450123456789012345"))
      = OutOfFuel) /\
  (forall fuel command validate valid self,
      truthy (rx self (reads self)) = false ->
      execute_multiple fuel command validate valid self =
      (Raise RN2483NoResponseError,
       advance 1 (exchange command 5000 (rx self (reads self))) self)) /\
  (forall command validate valid self,
      (exists fuel,
          fst (execute_multiple fuel command validate valid self) <> OutOfFuel)
      <-> truthy (rx self (reads self)) = false \/
          (exists n, undecodable (rx self (n + reads self)) = true) \/
          (exists n, rx self (S n + reads self) = None)).
Proof.
  assert (Hmain : forall command validate valid self,
      truthy (rx self (reads self)) = true ->
      utf8_line (rx self) ->
      ((exists fuel,
           fst (execute_multiple fuel command validate valid self) <> OutOfFuel)
       <-> exists n, rx self (S n + reads self) = None) /\
      (forall n,
          rx self (S n + reads self) = None ->
          (forall i, i < n -> rx self (S i + reads self) <> None) ->
          forall fuel, n < fuel ->
          reads (snd (execute_multiple fuel command validate valid self))
            = S (S n) + reads self)).
  { intros command validate valid self Ht Hu.
    assert (Hrun : forall n,
      rx self (S n + reads self) = None ->
      (forall i, i < n -> rx self (S i + reads self) <> None) ->
      forall fuel, n < fuel ->
      fst (execute_multiple fuel command validate valid self) <> OutOfFuel /\
      reads (snd (execute_multiple fuel command validate valid self))
        = S (S n) + reads self).
    { intros n Hnone Hbefore fuel Hf.
      set (rest := map (rx self) (seq (S (reads self)) n)).
      assert (Hlen : length rest = n)
        by (unfold rest; now rewrite length_map, length_seq).
      assert (Hnext : next_reads (rx self) (reads self)
                        (rx self (reads self) :: rest ++ [None])).
      { cbn. split; [reflexivity|]. apply next_reads_app. split.
        - apply next_reads_map_seq.
        - cbn. rewrite Hlen. split; [|exact I].
          now replace (n + S (reads self)) with (S n + reads self) by lia. }
      assert (Hsome : Forall (fun r => r <> None) rest).
      { apply Forall_forall. intros r Hr. apply in_map_iff in Hr.
        destruct Hr as (k & <- & Hk). apply in_seq in Hk.
        replace k with (S (k - S (reads self)) + reads self) by lia.
        apply Hbefore. lia. }
      destruct (gather_utf8 (rx self (reads self) :: rest)) as [lines Hg].
      { apply Forall_forall. intros r [<- | Hr] b Hb; [eapply Hu; eauto|].
        apply in_map_iff in Hr. destruct Hr as (k & <- & _). eapply Hu; eauto. }
      destruct (execute_multiple_lines fuel command validate valid self
                  _ _ _ Hnext Ht Hsome Hg) as (Hreads & Hinv & Hret);
        [lia|].
      split; [|rewrite Hreads, Hlen; lia].
      destruct validate.
      - destruct (list_eq_dec string_dec lines valid) as [E|N].
        + rewrite (proj2 Hret (or_intror E)). discriminate.
        + rewrite (proj2 Hinv (conj eq_refl N)). discriminate.
      - rewrite (proj2 Hret (or_introl eq_refl)). discriminate. }
    split.
    - split.
      + intros [fuel H]. rewrite execute_multiple_run in H. cbv zeta in H.
        destruct (received (rx self (reads self))) as [decoded|] eqn:Hr.
        * destruct (rx self (reads self)) as [b|] eqn:E; [|discriminate].
          match type of H with
          | context [read_loop ?f ?r ?l ?s] =>
              pose proof (read_loop_needs_timeout f b l s Hu) as Hl;
              destruct (read_loop f r l s) as [[results|e|] final]
          end; cbn [fst] in *.
          -- destruct Hl as [n Hn]; [discriminate|]. exists n.
             cbn in Hn.
             now replace (S n + reads self) with (n + S (reads self)) by lia.
          -- destruct Hl as [n Hn]; [discriminate|]. exists n.
             cbn in Hn.
             now replace (S n + reads self) with (n + S (reads self)) by lia.
          -- congruence.
        * exfalso. destruct (rx self (reads self)) as [[|a b]|] eqn:E;
            try discriminate.
          cbn in Hr. unfold decode_utf8 in Hr. rewrite (Hu _ _ E) in Hr.
          discriminate.
      + intros [n Hn].
        replace (S n + reads self) with (n + S (reads self)) in Hn by lia.
        destruct (first_timeout (rx self) n (S (reads self)) Hn)
          as (m & Hm & Hnone & Hbefore).
        exists (S m). apply (Hrun m); [| |lia].
        * now replace (S m + reads self) with (m + S (reads self)) by lia.
        * intros i Hi.
          replace (S i + reads self) with (i + S (reads self)) by lia. auto.
    - intros n Hnone Hbefore fuel Hf. now apply Hrun. }
  split; [|split; [|split; [|split]]].
  - intros fuel b results self E. rewrite read_loop_step. cbv zeta.
    rewrite E. reflexivity.
  - exact Hmain.
  - intros fuel.
    match goal with
    | |- fst (execute_multiple _ ?c ?v ?e ?s) = _ =>
        destruct (Hmain c v e s eq_refl silent_after_ok_utf8) as [[Hends _] _];
        destruct (fst (execute_multiple fuel c v e s)) as [results|e'|] eqn:E;
        [| |reflexivity];
        (destruct Hends as [n Hn];
         [exists fuel; rewrite E; discriminate | cbn in Hn; discriminate])
    end.
  - intros fuel command validate valid self Ht.
    now apply execute_multiple_no_answer.
  - intros command validate valid self. apply execute_multiple_ends.
Qed.

(** C9 as stated fails on "for every response stream".  On a line whose
    first read times out and whose later reads all bring ["ok"],
    [execute_multiple] ends with [RN2483NoResponseError] although no read
    after the first returns [None]; so it does on a line that answers
    ["ok"] and then only bytes that are not UTF-8, with [UnicodeError]. *)
Lemma execute_multiple_ends_without_timeout :
  let silent :=
    boot (fun n => match n with 0 => None | S _ => line "ok" end)
      "0123456789012345" "01234567890123450123456789012345" in
  let garbled :=
    boot (fun n => match n with
                   | 0 => line "ok"
                   | S _ => Some (String "255" CRLF)
                   end)
      "0123456789012345" "01234567890123450123456789012345" in
  (forall n, rx silent (S n + reads silent) <> None) /\
  (forall fuel,
      fst (execute_multiple fuel "mac join otaa" true ["ok"; "accepted"] silent)
      = Raise RN2483NoResponseError) /\
  (forall n, rx garbled (S n + reads garbled) <> None) /\
  (forall fuel,
      fst (execute_multiple (S fuel) "mac join otaa" true ["ok"; "accepted"]
             garbled)
      = Raise UnicodeError) /\
  ~ (forall command validate valid self,
        (exists fuel,
            fst (execute_multiple fuel command validate valid self)
            <> OutOfFuel)
        <-> exists n, rx self (S n + reads self) = None).
Proof.
  cbv zeta.
  assert (Hsilent : forall fuel,
    fst (execute_multiple fuel "mac join otaa" true ["ok"; "accepted"]
           (boot (fun n => match n with 0 => None | S _ => line "ok" end)
              "0123456789012345" "01234567890123450123456789012345"))
    = Raise RN2483NoResponseError).
  { intros fuel. now rewrite execute_multiple_no_answer. }
  split; [intros n; cbn; discriminate|].
  split; [exact Hsilent|].
  split; [intros n; cbn; discriminate|].
  split; [intros fuel; reflexivity|].
  intros H.
  match type of Hsilent with
  | forall fuel, fst (execute_multiple fuel ?c ?v ?e ?s) = _ =>
      destruct (proj1 (H c v e s)) as [n Hn];
        [exists 0; rewrite Hsilent; discriminate | cbn in Hn; discriminate]
  end.
Qed.

(** ** Runs only add to the trace *)

Lemma extends_refl self : extends self self.
Proof.
  unfold extends. repeat split; auto. exists []. now rewrite app_nil_r.
Qed.

Lemma extends_trans s1 s2 s3 : extends s1 s2 -> extends s2 s3 -> extends s1 s3.
Proof.
  intros (R1 & A1 & K1 & L1 & e1 & T1) (R2 & A2 & K2 & L2 & e2 & T2).
  unfold extends. repeat split; try congruence; try lia.
  exists (e1 ++ e2)%list. now rewrite T2, T1, app_assoc.
Qed.

Lemma extends_advance n evs self : extends self (advance n evs self).
Proof. unfold extends; cbn. repeat split; auto; [lia | eauto]. Qed.

Lemma extends_set_hw_eui v self : extends self (set_hw_eui v self).
Proof.
  unfold extends; cbn. repeat split; auto. exists []. now rewrite app_nil_r.
Qed.

Lemma grows_bind {A B} (c : M A) (k : A -> M B) :
  grows c -> (forall a, grows (k a)) -> grows (bind c k).
Proof.
  intros Hc Hk self. unfold bind. specialize (Hc self).
  destruct (c self) as [[a|e|] s']; cbn [snd] in *; auto.
  eapply extends_trans; [exact Hc | apply Hk].
Qed.

Lemma grows_ret {A} (a : A) : grows (ret a).
Proof. intros self. apply extends_refl. Qed.

Lemma grows_raise {A} e : grows (@raise A e).
Proof. intros self. apply extends_refl. Qed.

Lemma grows_log e : grows (fun self => (Return tt, log e self)).
Proof. intros self. apply (extends_advance 0 [e]). Qed.

Lemma grows_wdt_feed : grows wdt_feed.
Proof. apply grows_log. Qed.

Lemma grows_sleep_ms ms : grows (sleep_ms ms).
Proof. apply grows_log. Qed.

Lemma grows_execute command validate valid : grows (execute command validate valid).
Proof.
  intros self.
  destruct (execute_exchange command validate valid self) as (tail & -> & _).
  apply extends_advance.
Qed.

Lemma grows_read_loop fuel : forall r results, grows (read_loop fuel r results).
Proof.
  induction fuel as [|fuel IH]; intros [b|] results self;
    try apply extends_refl.
  rewrite read_loop_step. cbv zeta.
  destruct (rx self (reads self)) as [[|a c]|].
  2: destruct (decode_utf8 (String a c)).
  all: try (eapply extends_trans; [apply extends_advance | apply IH]).
  apply extends_advance.
Qed.

Lemma grows_execute_multiple fuel command validate valid :
  grows (execute_multiple fuel command validate valid).
Proof.
  intros self. rewrite execute_multiple_run. cbv zeta.
  destruct (received (rx self (reads self))) as [decoded|].
  2: apply extends_advance.
  match goal with
  | |- context [read_loop ?f ?r ?l ?s] =>
      pose proof (grows_read_loop f r l s) as Hl;
      destruct (read_loop f r l s) as [[results|e|] final]
  end; cbn [snd] in *.
  1: destruct (validate && negb (list_eqb results valid)); cbn [snd].
  all: eapply extends_trans; [apply extends_advance | exact Hl].
Qed.

Lemma grows_get {A} (f : RN2483 -> A) : grows (fun self => (Return (f self), self)).
Proof. intros self. apply extends_refl. Qed.

Lemma grows_get_hw_eui : grows get_hw_eui.
Proof.
  intros self. unfold get_hw_eui. destruct (hw_eui self); apply extends_refl.
Qed.

Lemma grows_sys_get_hweui : grows sys_get_hweui.
Proof.
  unfold sys_get_hweui.
  apply grows_bind; [apply grows_execute|]. intros v.
  apply grows_bind; [|intros _; apply grows_get_hw_eui].
  intros self. apply extends_set_hw_eui.
Qed.

Create HintDb grows.
#[local] Hint Resolve grows_ret grows_raise grows_wdt_feed grows_sleep_ms
  grows_execute grows_execute_multiple grows_get_hw_eui grows_sys_get_hweui
  : grows.

Ltac grows :=
  repeat first
    [ progress auto with grows
    | apply grows_bind; [|intros ?]
    | match goal with |- grows (if ?b then _ else _) => destruct b end
    | apply (grows_get app_eui) | apply (grows_get app_key) ].

Lemma grows_mac_reset band : grows (mac_reset band).
Proof. unfold mac_reset. grows. Qed.

Lemma grows_mac_set_deveui deveui : grows (mac_set_deveui deveui).
Proof. unfold mac_set_deveui. grows. Qed.

Lemma grows_mac_set_appeui appeui : grows (mac_set_appeui appeui).
Proof. unfold mac_set_appeui. grows. Qed.

Lemma grows_mac_set_appkey appkey : grows (mac_set_appkey appkey).
Proof. unfold mac_set_appkey. grows. Qed.

Lemma grows_mac_set_pwridx pwrindex : grows (mac_set_pwridx pwrindex).
Proof. unfold mac_set_pwridx. grows. Qed.

Lemma grows_mac_set_dr datarate : grows (mac_set_dr datarate).
Proof. unfold mac_set_dr. grows. Qed.

Lemma grows_mac_set_adr on : grows (mac_set_adr on).
Proof. unfold mac_set_adr. grows. Qed.

Lemma grows_mac_set_ar on : grows (mac_set_ar on).
Proof. unfold mac_set_ar. grows. Qed.

Lemma grows_mac_save : grows mac_save.
Proof. unfold mac_save. grows. Qed.

Lemma grows_mac_join fuel mode : grows (mac_join fuel mode).
Proof. unfold mac_join. grows. Qed.

#[local] Hint Resolve grows_mac_reset grows_mac_set_deveui grows_mac_set_appeui
  grows_mac_set_appkey grows_mac_set_pwridx grows_mac_set_dr grows_mac_set_adr
  grows_mac_set_ar grows_mac_save grows_mac_join : grows.

Lemma extends_writes self final :
  extends self final ->
  exists later, writes_after self final later.
Proof.
  intros (_ & _ & _ & _ & evs & H). exists (writes_of evs).
  unfold writes_after. now rewrite H, writes_of_app.
Qed.

(** ** Running a sequence of commands *)

Lemma bind_eq {A B} (c : M A) (k : A -> M B) self :
  bind c k self =
  match c self with
  | (Return a, self') => k a self'
  | (Raise e, self') => (Raise e, self')
  | (OutOfFuel, self') => (OutOfFuel, self')
  end.
Proof. reflexivity. Qed.

(** A command that discards the text of its single response. *)
Lemma command_run command validate self :
  (execute command validate "ok" ;; ret tt) self =
  match refusal validate "ok" (rx self (reads self)) with
  | None =>
      (Return tt,
       advance 1 (exchange command 100 (rx self (reads self)) ++ [Feed]) self)
  | Some e =>
      (Raise e, advance 1 (exchange command 100 (rx self (reads self))) self)
  end.
Proof.
  rewrite bind_eq. unfold refusal.
  destruct (received (rx self (reads self))) as [decoded|] eqn:Hr.
  - rewrite (execute_received _ _ _ _ _ Hr).
    destruct (validate && negb (decoded =? "ok")); reflexivity.
  - destruct (truthy (rx self (reads self))) eqn:Ht.
    + now rewrite (execute_garbled _ _ _ _ Ht Hr).
    + now rewrite (execute_silent _ _ _ _ Ht).
Qed.

Lemma sys_get_hweui_run self :
  sys_get_hweui self =
  match received (rx self (reads self)) with
  | Some decoded =>
      (Return decoded,
       set_hw_eui decoded
         (advance 1 (hweui_query (rx self (reads self))) self))
  | None =>
      (Raise (if truthy (rx self (reads self)) then UnicodeError
              else RN2483NoResponseError),
       advance 1 (exchange "sys get hweui" 100 (rx self (reads self))) self)
  end.
Proof.
  destruct (received (rx self (reads self))) as [decoded|] eqn:Hr.
  - now apply sys_get_hweui_received.
  - now apply sys_get_hweui_failed.
Qed.

Lemma refusal_unvalidated valid got :
  refusal false valid got = None <-> exists decoded, received got = Some decoded.
Proof.
  unfold refusal. destruct (received got); cbn; split; eauto;
    try discriminate. intros [? ?]; discriminate.
Qed.

Lemma refusal_validated valid got :
  refusal true valid got = None <-> received got = Some valid.
Proof.
  unfold refusal. destruct (received got) as [decoded|]; cbn;
    [|split; discriminate].
  destruct (String.eqb_spec decoded valid) as [->|N]; cbn; split;
    congruence.
Qed.

(** C10.  A hardware-EUI query that receives a line stores the decoded,
    stripped text in [hw_eui] and returns it, whatever the text is: the
    query is not validated, so the ["invalid_param"] a booting module sends
    is cached like any other answer.  The join sequence starts with such a
    query, and the device EUI it then sends is the value so cached. *)
Theorem sys_get_hweui_caches_every_answer :
  (forall self decoded,
      received (rx self (reads self)) = Some decoded ->
      fst (sys_get_hweui self) = Return decoded /\
      hw_eui (snd (sys_get_hweui self)) = Some decoded) /\
  hw_eui (snd (sys_get_hweui (demo [line "invalid_param"])))
    = Some "invalid_param" /\
  (forall fuel self cached any,
      received (rx self (reads self)) = Some cached ->
      received (rx self (S (reads self))) = Some any ->
      exists later,
        writes_after self (snd (initialize_ttn_otaa fuel self))
          (["sys get hweui" ++ CRLF; "mac reset 868" ++ CRLF;
            "mac set deveui " ++ cached ++ CRLF] ++ later)).
Proof.
  split; [|split; [reflexivity|]].
  - intros self decoded Hr. now rewrite (sys_get_hweui_received _ _ Hr).
  - intros fuel self cached any H0 H1.
    unfold initialize_ttn_otaa.
    rewrite bind_eq, sys_get_hweui_run, H0.
    rewrite bind_eq. unfold sleep_ms at 1.
    rewrite bind_eq. unfold mac_reset.
    rewrite command_run.
    cbn [rx reads advance set_hw_eui log Nat.add].
    rewrite (proj2 (refusal_unvalidated "ok" _) (ex_intro _ any H1)).
    rewrite bind_eq. unfold get_hw_eui at 1. cbn [hw_eui advance set_hw_eui log].
    rewrite bind_eq. unfold mac_set_deveui.
    match goal with
    | |- context [(execute ?c true "ok" ;; ret tt) ?s] =>
        pose proof (execute_writes c true "ok" s) as Hw;
        pose proof (grows_execute c true "ok" s) as Hg;
        rewrite (bind_ret_tt (execute c true "ok") s);
        destruct (execute c true "ok" s) as [[a|e|] s3]
    end; cbn [fst snd] in *.
    2,3: exists []; unfold writes_after in *; rewrite Hw; cbn [trace advance log set_hw_eui];
        rewrite !writes_of_app; cbn; rewrite <- !app_assoc; reflexivity.
    match goal with
    | |- context [bind ?c ?k s3] =>
        assert (Hrest : grows (bind c k)) by grows
    end.
    match goal with
    | |- context [bind ?c ?k s3] =>
        destruct (extends_writes _ _ (Hrest s3)) as [later Hl];
        exists later
    end.
    unfold writes_after in *. rewrite Hl, Hw.
    cbn [trace advance log set_hw_eui].
    rewrite !writes_of_app. cbn. rewrite <- !app_assoc. reflexivity.
Qed.

(** ** Watchdog feeds *)

(** A run of [execute] that returns feeds the watchdog before and after its
    sleep and its read. *)
Lemma execute_returns_fed command validate valid decoded :
  let self := demo [line decoded] in
  fst (execute command validate valid self) = Return decoded ->
  fed_around_waits (trace (snd (execute command validate valid self))) = true.
Proof.
  cbv zeta. rewrite execute_run. cbv zeta.
  destruct (rx _ _) as [[|a b]|]; try discriminate.
  destruct (decode_utf8 (String a b)) as [text|]; try discriminate.
  destruct (validate && negb (strip text =? valid)); try discriminate.
  reflexivity.
Qed.

(** C8, evaluated where it fails.  In the loop of [execute_multiple] each
    sleep is followed by the read with no feed in between, although the
    first read of the same method is preceded by one; and a run of
    [execute] or [execute_multiple] that raises after its read ends on that
    read, with no feed after it. *)
Theorem watchdog_not_fed_around_every_wait :
  trace (snd (execute_multiple 2 "mac join otaa" true ["ok"; "accepted"]
                (demo [line "ok"; line "accepted"; None])))
    = [Feed; Write ("mac join otaa" ++ CRLF); SleepMs 5000; Feed;
       ReadLine (line "ok");
       Feed; SleepMs 5000; ReadLine (line "accepted"); Feed;
       Feed; SleepMs 5000; ReadLine None; Feed] /\
  fed_around_waits
    (trace (snd (execute_multiple 2 "mac join otaa" true ["ok"; "accepted"]
                   (demo [line "ok"; line "accepted"; None])))) = false /\
  execute "mac save" true "ok" (demo [None])
    = (Raise RN2483NoResponseError,
       advance 1 [Feed; Write ("mac save" ++ CRLF); SleepMs 100; Feed;
                  ReadLine None] (demo [None])) /\
  fed_around_waits (trace (snd (execute "mac save" true "ok" (demo [None]))))
    = false /\
  fed_around_waits
    (trace (snd (execute "mac save" true "ok" (demo [line "invalid_param"]))))
    = false /\
  fed_around_waits
    (trace (snd (execute_multiple 2 "mac join otaa" true ["ok"; "accepted"]
                   (demo [None]))))
    = false /\
  fed_around_waits (trace (snd (execute "mac save" true "ok" (demo [line "ok"]))))
    = true.
Proof. repeat split. Qed.

(** Whatever the serial line sends after a first line, the loop of
    [execute_multiple] sleeps and then reads without a feed in between. *)
Lemma execute_multiple_sleeps_then_reads fuel command validate valid self decoded :
  received (rx self (reads self)) = Some decoded ->
  exists later,
    trace (snd (execute_multiple (S fuel) command validate valid self)) =
    (trace self ++ exchange command 5000 (rx self (reads self))
       ++ [Feed; SleepMs 5000; ReadLine (rx self (S (reads self)))]
       ++ later)%list.
Proof.
  intros Hr. rewrite execute_multiple_run. cbv zeta. rewrite Hr.
  destruct (rx self (reads self)) as [b|] eqn:E; [|discriminate].
  rewrite read_loop_step. cbv zeta.
  cbn [rx reads advance Nat.add].
  set (self1 := advance 1 (exchange command 5000 (Some b)) self).
  set (r1 := rx self (S (reads self))).
  assert (Hloop : forall (run : result (list str) * RN2483),
    extends (advance 1 (loop_pass r1) self1) (snd run) ->
    exists later,
      trace (snd (match run with
                  | (Return results, final) =>
                      if validate && negb (list_eqb results valid) then
                        (Raise (RN2483InvalidResponse (Lists results valid)), final)
                      else (Return results, final)
                  | (Raise e, final) => (Raise e, final)
                  | (OutOfFuel, final) => (OutOfFuel, final)
                  end)) =
      (trace self ++ exchange command 5000 (Some b)
         ++ [Feed; SleepMs 5000; ReadLine r1] ++ later)%list).
  { intros [[results|e|] final] (_ & _ & _ & _ & evs & Ht); cbn [snd] in *.
    1: destruct (validate && negb (list_eqb results valid)); cbn [snd].
    all: exists (Feed :: evs); rewrite Ht; unfold self1; cbn [trace advance loop_pass];
      rewrite <- !app_assoc; reflexivity. }
  destruct r1 as [[|a c]|].
  - apply Hloop. apply grows_read_loop.
  - destruct (decode_utf8 (String a c)).
    + apply Hloop. apply grows_read_loop.
    + apply (Hloop (Raise UnicodeError, _)). apply extends_refl.
  - apply Hloop. apply grows_read_loop.
Qed.

(** ** The readiness poll *)

Lemma state_eq (a b : RN2483) :
  hw_eui a = hw_eui b -> app_eui a = app_eui b -> app_key a = app_key b ->
  rx a = rx b -> reads a = reads b -> trace a = trace b -> a = b.
Proof. destruct a, b; cbn; intros; subst; reflexivity. Qed.

Lemma poll_loop_run passes :
  forall fuel self final decoded,
    next_reads (rx self) (reads self)
      (flat_map (fun p => [fst p; snd p]) passes ++ [final]) ->
    Forall (fun p => received (fst p) = Some "invalid_param" /\
                     exists any, received (snd p) = Some any) passes ->
    received final = Some decoded ->
    decoded <> "invalid_param" ->
    length passes < fuel ->
    poll_loop fuel self =
    (Return tt,
     set_hw_eui decoded
       (advance (S (2 * length passes))
          (flat_map poll_pass passes ++ hweui_query final) self)).
Proof.
  induction passes as [|[s x] passes IH];
    intros fuel self final decoded Hn Hp Hf Hd Hfuel;
    (destruct fuel as [|fuel]; [cbn in Hfuel; lia|]);
    cbn [poll_loop]; rewrite bind_eq, sys_get_hweui_run;
    cbn in Hn; destruct Hn as [H0 Hn]; rewrite H0.
  - rewrite Hf. apply String.eqb_neq in Hd. rewrite Hd. reflexivity.
  - inversion Hp as [|? ? [Hs [any Hx]] Hp']; subst. cbn [fst snd] in *.
    destruct Hn as [H1 Hn].
    rewrite Hs. cbn [String.eqb Ascii.eqb Bool.eqb andb].
    change ("invalid_param" =? "invalid_param") with true. cbv iota.
    rewrite bind_eq. unfold sleep_ms at 1.
    rewrite bind_eq, sys_get_hweui_run.
    cbn [rx reads advance set_hw_eui log Nat.add]. rewrite H1, Hx.
    rewrite bind_eq. unfold wdt_feed at 1.
    etransitivity; [apply (IH fuel _ final decoded); auto; cbn in Hfuel; lia|].
    f_equal. apply state_eq; cbn [hw_eui app_eui app_key rx reads trace
      set_hw_eui advance log]; try reflexivity.
    + cbn [length]. lia.
    + cbn [flat_map]. unfold poll_pass at 2. cbn [fst snd].
      rewrite <- !app_assoc. reflexivity.
Qed.

Lemma _poll_until_ready_run passes fuel self final extra decoded :
  next_reads (rx self) (reads self) (poll_reads passes final extra) ->
  Forall (fun p => received (fst p) = Some "invalid_param" /\
                   exists any, received (snd p) = Some any) passes ->
  received final = Some decoded ->
  decoded <> "invalid_param" ->
  length passes < fuel ->
  _poll_until_ready fuel self =
  (Return tt,
   set_hw_eui decoded
     (advance (2 * length passes + 2) (poll_trace passes final extra) self)).
Proof.
  intros Hn Hp Hf Hd Hfuel. unfold poll_reads in Hn.
  change [final; extra] with ([final] ++ [extra])%list in Hn.
  rewrite app_assoc in Hn. apply next_reads_app in Hn. destruct Hn as [Hn He].
  cbn in He. destruct He as [He _].
  unfold _poll_until_ready.
  rewrite bind_eq. unfold wdt_feed at 1.
  rewrite bind_eq.
  rewrite (poll_loop_run passes fuel (log Feed self) final decoded Hn Hp Hf Hd Hfuel).
  rewrite bind_eq. unfold uart_read.
  cbn [rx reads advance set_hw_eui log consume Nat.add].
  unfold wdt_feed.
  rewrite length_app, (flat_map_constant_length (c := 2)) in He by reflexivity.
  cbn [length] in He.
  replace (length passes * 2 + 1 + reads self)
    with (S (2 * length passes + reads self)) in He by lia.
  rewrite He.
  f_equal. apply state_eq; cbn [hw_eui app_eui app_key rx reads trace
      set_hw_eui advance log consume]; try reflexivity.
  - lia.
  - unfold poll_trace. rewrite <- !app_assoc. reflexivity.
Qed.

Lemma writes_of_poll_pass p :
  writes_of (poll_pass p) = repeat ("sys get hweui" ++ CRLF) 2.
Proof. reflexivity. Qed.

Lemma poll_trace_writes passes final extra :
  writes_of (poll_trace passes final extra) =
  repeat ("sys get hweui" ++ CRLF) (2 * length passes + 1).
Proof.
  unfold poll_trace. rewrite !writes_of_app. cbn [writes_of app].
  induction passes as [|p passes IH].
  - reflexivity.
  - cbn [flat_map length]. rewrite writes_of_app, writes_of_poll_pass.
    replace (2 * S (length passes) + 1) with (2 + (2 * length passes + 1)) by lia.
    rewrite repeat_app, <- app_assoc. f_equal. exact IH.
Qed.

Lemma poll_trace_sleeps passes final extra :
  length (filter (is_sleep 10) (poll_trace passes final extra)) = length passes.
Proof.
  unfold poll_trace. rewrite !filter_app, !length_app. cbn.
  induction passes as [|p passes IH].
  - reflexivity.
  - cbn [flat_map]. rewrite filter_app, length_app. cbn in *. lia.
Qed.

(** C2, amended.  The readiness poll issues the hardware-EUI query once to
    test the loop condition and, on every pass through the loop body, once
    more after a 10 time-unit sleep and before a watchdog feed; only the
    answer to the query of the test is compared with ["invalid_param"], and
    the poll returns when that answer differs, after one more read of the
    serial line.  With [k] passes it issues [2k+1] queries and sleeps [k]
    times, and the cached hardware EUI is the last answer.  For the answers
    ["invalid_param"], ["invalid_param"], ["example_hw_eui"] it issues the
    query three times, in one pass with one sleep, and leaves the cached
    hardware EUI equal to ["example_hw_eui"]. *)
Theorem _poll_until_ready_spec passes fuel self final extra decoded :
  next_reads (rx self) (reads self) (poll_reads passes final extra) ->
  Forall (fun p => received (fst p) = Some "invalid_param" /\
                   exists any, received (snd p) = Some any) passes ->
  received final = Some decoded ->
  decoded <> "invalid_param" ->
  length passes < fuel ->
  _poll_until_ready fuel self =
  (Return tt,
   set_hw_eui decoded
     (advance (2 * length passes + 2) (poll_trace passes final extra) self)) /\
  writes_of (poll_trace passes final extra) =
    repeat ("sys get hweui" ++ CRLF) (2 * length passes + 1) /\
  length (filter (is_sleep 10) (poll_trace passes final extra))
    = length passes /\
  (let run := _poll_until_ready 2
                (demo [line "invalid_param"; line "invalid_param";
                       line "example_hw_eui"]) in
   fst run = Return tt /\
   hw_eui (snd run) = Some "example_hw_eui" /\
   writes_of (trace (snd run)) = repeat ("sys get hweui" ++ CRLF) 3 /\
   length (filter (is_sleep 10) (trace (snd run))) = 1).
Proof.
  intros Hn Hp Hf Hd Hfuel. split; [|split; [|split]].
  - now apply _poll_until_ready_run.
  - apply poll_trace_writes.
  - apply poll_trace_sleeps.
  - cbv zeta. repeat split.
Qed.

(** C2 as stated fails.  The answer to the second query below is not the
    sentinel, yet the poll goes on, because that query is the one of the
    loop body, whose answer is not tested: it stops three queries later and
    caches ["late"], where a poll that queries once per attempt stops at the
    second answer.  On the claim's own sequence the three queries are
    separated by a single 10 time-unit sleep, not by one between each two
    attempts. *)
Lemma poll_queries_twice_per_pass :
  let self := demo [line "invalid_param"; line "example_hw_eui";
                    line "invalid_param"; line "invalid_param"; line "late"] in
  let own := demo [line "invalid_param"; line "invalid_param";
                   line "example_hw_eui"] in
  received (rx self 1) = Some "example_hw_eui" /\
  fst (poll_loop 3 self) = Return tt /\
  reads (snd (poll_loop 3 self)) = 5 /\
  hw_eui (snd (poll_loop 3 self)) = Some "late" /\
  fst (poll_loop_as_specified 3 self) = Return tt /\
  reads (snd (poll_loop_as_specified 3 self)) = 2 /\
  hw_eui (snd (poll_loop_as_specified 3 self)) = Some "example_hw_eui" /\
  length (writes_of (trace (snd (poll_loop 3 own)))) = 3 /\
  length (filter (is_sleep 10) (trace (snd (poll_loop 3 own)))) = 1 /\
  length (filter (is_sleep 10) (trace (snd (poll_loop_as_specified 3 own)))) = 2.
Proof. cbv zeta. repeat split. Qed.

(** ** The join-and-configure sequence *)

Ltac simpl_state :=
  cbn [rx reads hw_eui app_eui app_key trace advance set_hw_eui log consume
       Nat.add].

Lemma sys_get_hweui_refusal self :
  sys_get_hweui self =
  match refusal false "ok" (rx self (reads self)) with
  | None =>
      (Return (text_of (rx self (reads self))),
       set_hw_eui (text_of (rx self (reads self)))
         (advance 1 (hweui_query (rx self (reads self))) self))
  | Some e =>
      (Raise e,
       advance 1 (exchange "sys get hweui" 100 (rx self (reads self))) self)
  end.
Proof.
  rewrite sys_get_hweui_run. unfold refusal, text_of.
  destruct (received (rx self (reads self))); reflexivity.
Qed.

(** One step of a sequence: the hardware-EUI query, a single-response
    command whose answer a hypothesis describes, or an action that cannot
    fail. *)
Ltac use_answer :=
  match goal with
  | H : refusal ?v ?e ?r = _ |- context [refusal ?v ?e ?r] => rewrite H
  end.

Lemma sleep_ms_eq ms self : sleep_ms ms self = (Return tt, log (SleepMs ms) self).
Proof. reflexivity. Qed.

Lemma wdt_feed_eq self : wdt_feed self = (Return tt, log Feed self).
Proof. reflexivity. Qed.

Lemma get_hw_eui_eq self :
  get_hw_eui self =
  match hw_eui self with
  | Some v => (Return v, self)
  | None => (Raise AttributeError, self)
  end.
Proof. reflexivity. Qed.

Lemma get_app_eui_eq self : get_app_eui self = (Return (app_eui self), self).
Proof. reflexivity. Qed.

Lemma get_app_key_eq self : get_app_key self = (Return (app_key self), self).
Proof. reflexivity. Qed.

Lemma mac_set_appeui_eq appeui self :
  mac_set_appeui appeui self =
  if Nat.eqb (len appeui) 16 then
    (execute ("mac set appeui " ++ appeui) true "ok" ;; ret tt) self
  else
    (Raise (RN2483InvalidInput
              "The AppEUI needs to be exact 16 characters long!"), self).
Proof. unfold mac_set_appeui. destruct (Nat.eqb (len appeui) 16); reflexivity. Qed.

Lemma mac_set_appkey_eq appkey self :
  mac_set_appkey appkey self =
  if Nat.eqb (len appkey) 32 then
    (execute ("mac set appkey " ++ appkey) true "ok" ;; ret tt) self
  else
    (Raise (RN2483InvalidInput
              "The AppKey needs to be exact 32 characters long!"), self).
Proof. unfold mac_set_appkey. destruct (Nat.eqb (len appkey) 32); reflexivity. Qed.

Ltac run_step :=
  rewrite bind_eq;
  first
    [ rewrite sys_get_hweui_refusal; simpl_state; use_answer
    | rewrite command_run; simpl_state; use_answer
    | rewrite sleep_ms_eq | rewrite wdt_feed_eq
    | rewrite get_hw_eui_eq | rewrite get_app_eui_eq
    | rewrite get_app_key_eq ];
  simpl_state; cbv beta iota.

Ltac check_length H :=
  rewrite bind_eq;
  first [ rewrite mac_set_appeui_eq | rewrite mac_set_appkey_eq ];
  simpl_state; rewrite H; cbn [Nat.eqb];
  try (rewrite command_run; simpl_state; use_answer); cbv beta iota.

Ltac expose_commands :=
  unfold initialize_ttn_otaa;
  change (mac_reset 868) with (execute "mac reset 868" false "ok" ;; ret tt);
  change (mac_set_pwridx 1) with (execute "mac set pwridx 1" true "ok" ;; ret tt);
  change (mac_set_dr 5) with (execute "mac set dr 5" true "ok" ;; ret tt);
  change (mac_set_adr false) with (execute "mac set adr off" true "ok" ;; ret tt);
  change (mac_set_ar false) with (execute "mac set ar off" true "ok" ;; ret tt);
  unfold mac_save, mac_set_deveui.

Ltac invert_answers :=
  repeat match goal with
         | H : Forall2 _ (_ :: _) _ |- _ => inversion H; clear H; subst
         | H : Forall2 _ [] _ |- _ => inversion H; clear H; subst
         end.

Ltac split_reads H :=
  cbn [next_reads app] in H;
  repeat match type of H with
         | _ /\ _ => let H0 := fresh "Hrx" in destruct H as [H0 H]
         end.

Lemma otaa_commands_length hweui appeui appkey :
  length (otaa_commands hweui appeui appkey) = 11.
Proof. reflexivity. Qed.

(** The ten single-response commands, when each is accepted. *)
Lemma otaa_configured fuel self answers :
  len (app_eui self) = 16 ->
  len (app_key self) = 32 ->
  Forall2 (fun validate got => refusal validate "ok" got = None)
    otaa_validated answers ->
  next_reads (rx self) (reads self) answers ->
  exists evs,
    writes_of evs =
      removelast (otaa_commands (text_of (hd None answers))
                    (app_eui self) (app_key self)) /\
    evs = performed
            (firstn 13 (otaa_steps (text_of (hd None answers))
                          (app_eui self) (app_key self))) answers /\
    initialize_ttn_otaa fuel self =
    (mac_join fuel "otaa" ;; wdt_feed)
      (set_hw_eui (text_of (hd None answers)) (advance 10 evs self)).
Proof.
  intros Hlen1 Hlen2 Hans Hn. unfold otaa_validated in Hans.
  invert_answers. cbn [hd]. split_reads Hn. subst.
  eexists. split; [|split]; cycle 2.
  - expose_commands.
    do 5 run_step. run_step. check_length Hlen1.
    run_step. check_length Hlen2.
    do 5 run_step. run_step. rewrite bind_eq. unfold wdt_feed at 1.
    f_equal. apply state_eq; simpl_state; try reflexivity.
    rewrite <- !app_assoc. reflexivity.
  - reflexivity.
  - reflexivity.
Qed.

Lemma read_loop_writes fuel :
  forall r results self,
    writes_of (trace (snd (read_loop fuel r results self)))
    = writes_of (trace self).
Proof.
  induction fuel as [|fuel IH]; intros [b|] results self; try reflexivity.
  rewrite read_loop_step. cbv zeta.
  assert (Hpass : forall got,
    writes_of (trace (advance 1 (loop_pass got) self)) = writes_of (trace self)).
  { intros got. cbn [trace advance]. rewrite writes_of_app. cbn.
    now rewrite app_nil_r. }
  destruct (rx self (reads self)) as [[|a c]|].
  2: destruct (decode_utf8 (String a c)).
  all: try (rewrite IH; apply Hpass).
  apply Hpass.
Qed.

Lemma execute_multiple_writes fuel command validate valid self :
  writes_after self (snd (execute_multiple fuel command validate valid self))
    [command ++ CRLF].
Proof.
  unfold writes_after. rewrite execute_multiple_run. cbv zeta.
  assert (Hx : forall got,
    writes_of (trace (advance 1 (exchange command 5000 got) self))
    = (writes_of (trace self) ++ [(command ++ CRLF)%string])%list).
  { intros got. cbn [trace advance]. now rewrite writes_of_app. }
  destruct (received (rx self (reads self))) as [decoded|]; [|apply Hx].
  match goal with
  | |- context [read_loop ?f ?r ?l ?s] =>
      pose proof (read_loop_writes f r l s) as Hl;
      destruct (read_loop f r l s) as [[results|e|] final]
  end; cbn [snd] in *.
  1: destruct (validate && negb (list_eqb results valid)); cbn [snd].
  all: rewrite Hl; apply Hx.
Qed.

Lemma read_loop_hw_eui fuel :
  forall r results self,
    hw_eui (snd (read_loop fuel r results self)) = hw_eui self.
Proof.
  induction fuel as [|fuel IH]; intros [b|] results self; try reflexivity.
  rewrite read_loop_step. cbv zeta.
  destruct (rx self (reads self)) as [[|a c]|].
  2: destruct (decode_utf8 (String a c)).
  all: try (rewrite IH; reflexivity).
  reflexivity.
Qed.

Lemma execute_multiple_hw_eui fuel command validate valid self :
  hw_eui (snd (execute_multiple fuel command validate valid self)) = hw_eui self.
Proof.
  rewrite execute_multiple_run. cbv zeta.
  destruct (received (rx self (reads self))) as [decoded|]; [|reflexivity].
  match goal with
  | |- context [read_loop ?f ?r ?l ?s] =>
      pose proof (read_loop_hw_eui f r l s) as Hl;
      destruct (read_loop f r l s) as [[results|e|] final]
  end; cbn [snd] in *.
  1: destruct (validate && negb (list_eqb results valid)); cbn [snd].
  all: rewrite Hl; reflexivity.
Qed.

(** The whole sequence, when the ten single-response commands are accepted
    and the join brings [lines] before it times out. *)
Lemma otaa_join fuel self answers first rest lines :
  len (app_eui self) = 16 ->
  len (app_key self) = 32 ->
  Forall2 (fun validate got => refusal validate "ok" got = None)
    otaa_validated answers ->
  next_reads (rx self) (reads self) (answers ++ first :: rest ++ [None]) ->
  truthy first = true ->
  Forall (fun r => r <> None) rest ->
  gather (first :: rest) = Some lines ->
  length rest < fuel ->
  exists final,
    initialize_ttn_otaa fuel self =
    (if list_eqb lines ["ok"; "accepted"] then Return tt
     else Raise (RN2483InvalidResponse (Lists lines ["ok"; "accepted"])),
     final) /\
    writes_after self final
      (otaa_commands (text_of (hd None answers)) (app_eui self) (app_key self)) /\
    hw_eui final = Some (text_of (hd None answers)) /\
    reads final = 12 + length rest + reads self.
Proof.
  intros Hlen1 Hlen2 Hans Hn Ht Hs Hg Hfuel.
  apply next_reads_app in Hn. destruct Hn as [Hn Hj].
  rewrite <- (Forall2_length Hans) in Hj. cbn [length otaa_validated] in Hj.
  destruct (otaa_configured fuel self answers Hlen1 Hlen2 Hans Hn)
    as (evs & Hw & _ & ->).
  set (ready := set_hw_eui (text_of (hd None answers)) (advance 10 evs self)).
  unfold mac_join. rewrite bind_eq, bind_ret_tt.
  pose proof (execute_multiple_writes fuel "mac join otaa" true
                ["ok"; "accepted"] ready) as Hjw.
  pose proof (execute_multiple_hw_eui fuel "mac join otaa" true
                ["ok"; "accepted"] ready) as Hcache.
  destruct (execute_multiple_lines fuel "mac join otaa" true
              ["ok"; "accepted"] ready first rest lines Hj Ht Hs Hg Hfuel)
    as (Hreads & Hinv & Hret).
  change ("mac join " ++ "otaa") with "mac join otaa".
  destruct (execute_multiple fuel "mac join otaa" true ["ok"; "accepted"] ready)
    as [outcome joined]. cbn [fst snd] in *.
  change (hw_eui ready) with (Some (text_of (hd None answers))) in Hcache.
  assert (Hwrites : writes_after self joined
            (otaa_commands (text_of (hd None answers)) (app_eui self)
               (app_key self))).
  { unfold writes_after in *. rewrite Hjw. unfold ready.
    cbn [trace advance set_hw_eui]. rewrite writes_of_app, Hw.
    rewrite <- app_assoc. reflexivity. }
  destruct (list_eqb lines ["ok"; "accepted"]) eqn:L.
  - apply list_eqb_eq in L.
    rewrite (proj2 Hret (or_intror L)). rewrite wdt_feed_eq.
    eexists. split; [reflexivity|].
    split; [|split].
    + unfold writes_after in *. cbn [trace log].
      rewrite writes_of_app, Hwrites. cbn. now rewrite app_nil_r.
    + exact Hcache.
    + cbn [reads log]. rewrite Hreads. cbn. lia.
  - apply list_eqb_neq in L.
    rewrite (proj2 Hinv (conj eq_refl L)).
    eexists. split; [reflexivity|].
    split; [exact Hwrites|split].
    + exact Hcache.
    + rewrite Hreads. cbn. lia.
Qed.

(** The whole sequence, when the join gets no answer at all. *)
Lemma otaa_join_silent fuel self answers first :
  len (app_eui self) = 16 ->
  len (app_key self) = 32 ->
  Forall2 (fun validate got => refusal validate "ok" got = None)
    otaa_validated answers ->
  next_reads (rx self) (reads self) (answers ++ [first]) ->
  truthy first = false ->
  exists final,
    initialize_ttn_otaa fuel self = (Raise RN2483NoResponseError, final) /\
    writes_after self final
      (otaa_commands (text_of (hd None answers)) (app_eui self) (app_key self)).
Proof.
  intros Hlen1 Hlen2 Hans Hn Ht.
  apply next_reads_app in Hn. destruct Hn as [Hn Hj].
  rewrite <- (Forall2_length Hans) in Hj. cbn [length otaa_validated] in Hj.
  destruct Hj as [Hj _].
  destruct (otaa_configured fuel self answers Hlen1 Hlen2 Hans Hn)
    as (evs & Hw & _ & ->).
  set (ready := set_hw_eui (text_of (hd None answers)) (advance 10 evs self)).
  unfold mac_join. rewrite bind_eq, bind_ret_tt.
  change ("mac join " ++ "otaa") with "mac join otaa".
  pose proof (execute_multiple_writes fuel "mac join otaa" true
                ["ok"; "accepted"] ready) as Hjw.
  assert (Hsilent : fst (execute_multiple fuel "mac join otaa" true
                           ["ok"; "accepted"] ready)
                    = Raise RN2483NoResponseError).
  { apply execute_multiple_silent. unfold ready.
    cbn [rx reads set_hw_eui advance]. now rewrite Hj. }
  destruct (execute_multiple fuel "mac join otaa" true ["ok"; "accepted"] ready)
    as [outcome joined]. cbn [fst snd] in *. subst outcome.
  exists joined. split; [reflexivity|].
  unfold writes_after in *. rewrite Hjw. unfold ready.
  cbn [trace advance set_hw_eui]. rewrite writes_of_app, Hw.
  rewrite <- app_assoc. reflexivity.
Qed.

Ltac run_steps Hlen1 Hlen2 :=
  expose_commands;
  repeat first [ run_step | check_length Hlen1 | check_length Hlen2 ].

(** The sequence stops at the first command whose answer [execute]
    refuses: nothing is written or read after it. *)
Lemma otaa_abort fuel self i answers bad e :
  len (app_eui self) = 16 ->
  len (app_key self) = 32 ->
  i < 10 ->
  Forall2 (fun validate got => refusal validate "ok" got = None)
    (firstn i otaa_validated) answers ->
  refusal (nth i otaa_validated true) "ok" bad = Some e ->
  next_reads (rx self) (reads self) (answers ++ [bad]) ->
  exists final,
    initialize_ttn_otaa fuel self = (Raise e, final) /\
    writes_after self final
      (firstn (S i)
         (otaa_commands (text_of (hd None answers)) (app_eui self)
            (app_key self))) /\
    reads final = S i + reads self.
Proof.
  intros Hlen1 Hlen2 Hi Hans Hbad Hn.
  do 10 (destruct i as [|i];
    [ cbn [firstn otaa_validated nth] in Hans, Hbad; invert_answers;
      cbn [hd]; split_reads Hn; subst;
      eexists; split;
      [ run_steps Hlen1 Hlen2; reflexivity
      | split;
        [ unfold writes_after; simpl_state; rewrite !writes_of_app;
          rewrite <- ?app_assoc; reflexivity
        | simpl_state; reflexivity ] ]
    | ]).
  lia.
Qed.

Lemma otaa_bad_appeui fuel self answers :
  len (app_eui self) <> 16 ->
  Forall2 (fun validate got => refusal validate "ok" got = None)
    (firstn 3 otaa_validated) answers ->
  next_reads (rx self) (reads self) answers ->
  exists final,
    initialize_ttn_otaa fuel self =
    (Raise (RN2483InvalidInput
              "The AppEUI needs to be exact 16 characters long!"), final) /\
    writes_after self final
      (firstn 3
         (otaa_commands (text_of (hd None answers)) (app_eui self)
            (app_key self))) /\
    reads final = 3 + reads self.
Proof.
  intros Hlen Hans Hn. apply Nat.eqb_neq in Hlen.
  cbn [firstn otaa_validated] in Hans. invert_answers.
  cbn [hd]. split_reads Hn. subst.
  eexists. split.
  - expose_commands. do 6 run_step.
    rewrite bind_eq, mac_set_appeui_eq. simpl_state. rewrite Hlen.
    reflexivity.
  - split.
    + unfold writes_after. simpl_state. rewrite !writes_of_app.
      rewrite <- ?app_assoc. reflexivity.
    + simpl_state. reflexivity.
Qed.

Lemma otaa_bad_appkey fuel self answers :
  len (app_eui self) = 16 ->
  len (app_key self) <> 32 ->
  Forall2 (fun validate got => refusal validate "ok" got = None)
    (firstn 4 otaa_validated) answers ->
  next_reads (rx self) (reads self) answers ->
  exists final,
    initialize_ttn_otaa fuel self =
    (Raise (RN2483InvalidInput
              "The AppKey needs to be exact 32 characters long!"), final) /\
    writes_after self final
      (firstn 4
         (otaa_commands (text_of (hd None answers)) (app_eui self)
            (app_key self))) /\
    reads final = 4 + reads self.
Proof.
  intros Hlen1 Hlen Hans Hn. apply Nat.eqb_neq in Hlen.
  cbn [firstn otaa_validated] in Hans. invert_answers.
  cbn [hd]. split_reads Hn. subst.
  eexists. split.
  - expose_commands. do 6 run_step. check_length Hlen1. run_step.
    rewrite bind_eq, mac_set_appkey_eq. simpl_state. rewrite Hlen.
    reflexivity.
  - split.
    + unfold writes_after. simpl_state. rewrite !writes_of_app.
      rewrite <- ?app_assoc. reflexivity.
    + simpl_state. reflexivity.
Qed.

(** The whole run of [execute_multiple], when the reads bring [lines]
    before one times out. *)
Lemma execute_multiple_state fuel command validate valid self first rest lines :
  next_reads (rx self) (reads self) (first :: rest ++ [None]) ->
  truthy first = true ->
  Forall (fun r => r <> None) rest ->
  gather (first :: rest) = Some lines ->
  length rest < fuel ->
  execute_multiple fuel command validate valid self =
  (if validate && negb (list_eqb lines valid)
   then Raise (RN2483InvalidResponse (Lists lines valid))
   else Return lines,
   advance (S (S (length rest)))
     (exchange command 5000 first ++ flat_map loop_pass (rest ++ [None]))
     self).
Proof.
  intros [H0 Hn] Ht Hs Hg Hf.
  rewrite execute_multiple_run. cbv zeta. rewrite H0.
  cbn [gather] in Hg. rewrite Ht in Hg.
  destruct (received first) as [decoded|] eqn:Hr; [|discriminate].
  destruct (gather rest) as [ts|] eqn:G; [|discriminate].
  injection Hg as <-.
  destruct first as [b|]; [|discriminate].
  erewrite read_loop_until_timeout; eauto.
  cbn [app]. rewrite advance_advance.
  replace (S (length rest) + 1) with (S (S (length rest))) by lia.
  destruct (validate && negb (list_eqb (decoded :: ts) valid)); reflexivity.
Qed.

Ltac flatten_events :=
  unfold hweui_query, exchange;
  repeat (progress cbn [app] || rewrite <- app_assoc);
  rewrite ?app_nil_r.

(** The events of the whole sequence, when the ten single-response commands
    are accepted and the join brings [lines] before it times out: every
    step is performed, in order, but for the last feed when the join is
    refused. *)
Lemma otaa_join_state fuel self answers first rest lines :
  len (app_eui self) = 16 ->
  len (app_key self) = 32 ->
  Forall2 (fun validate got => refusal validate "ok" got = None)
    otaa_validated answers ->
  next_reads (rx self) (reads self) (answers ++ first :: rest ++ [None]) ->
  truthy first = true ->
  Forall (fun r => r <> None) rest ->
  gather (first :: rest) = Some lines ->
  length rest < fuel ->
  trace (snd (initialize_ttn_otaa fuel self)) =
  (trace self ++
   performed
     (if list_eqb lines ["ok"; "accepted"]
      then otaa_steps (text_of (hd None answers)) (app_eui self) (app_key self)
      else removelast
             (otaa_steps (text_of (hd None answers)) (app_eui self)
                (app_key self)))
     (answers ++ first :: rest ++ [None]))%list.
Proof.
  intros Hlen1 Hlen2 Hans Hn Ht Hs Hg Hfuel.
  apply next_reads_app in Hn. destruct Hn as [Hn Hj].
  rewrite <- (Forall2_length Hans) in Hj. cbn [length otaa_validated] in Hj.
  destruct (otaa_configured fuel self answers Hlen1 Hlen2 Hans Hn)
    as (evs & _ & Hev & ->).
  set (ready := set_hw_eui (text_of (hd None answers)) (advance 10 evs self)).
  unfold mac_join. rewrite bind_eq, bind_ret_tt.
  change ("mac join " ++ "otaa") with "mac join otaa".
  rewrite (execute_multiple_state fuel "mac join otaa" true ["ok"; "accepted"]
             ready first rest lines Hj Ht Hs Hg Hfuel).
  cbn [fst snd andb]. subst ready evs.
  unfold otaa_validated in Hans. invert_answers.
  destruct (list_eqb lines ["ok"; "accepted"]); cbn [negb];
    [rewrite wdt_feed_eq|]; cbn [snd trace log advance set_hw_eui];
    cbn [firstn otaa_steps removelast performed app hd tl];
    flatten_events; reflexivity.
Qed.

(** The events of the sequence when the join gets no answer: the thirteen
    steps before the join, then its exchange. *)
Lemma otaa_join_silent_trace fuel self answers first :
  len (app_eui self) = 16 ->
  len (app_key self) = 32 ->
  Forall2 (fun validate got => refusal validate "ok" got = None)
    otaa_validated answers ->
  next_reads (rx self) (reads self) (answers ++ [first]) ->
  truthy first = false ->
  trace (snd (initialize_ttn_otaa fuel self)) =
  (trace self ++
   performed
     (firstn 13
        (otaa_steps (text_of (hd None answers)) (app_eui self) (app_key self)))
     answers ++ exchange "mac join otaa" 5000 first)%list.
Proof.
  intros Hlen1 Hlen2 Hans Hn Ht.
  apply next_reads_app in Hn. destruct Hn as [Hn Hj].
  rewrite <- (Forall2_length Hans) in Hj. cbn [length otaa_validated] in Hj.
  destruct Hj as [Hj _].
  destruct (otaa_configured fuel self answers Hlen1 Hlen2 Hans Hn)
    as (evs & _ & Hev & ->).
  set (ready := set_hw_eui (text_of (hd None answers)) (advance 10 evs self)).
  unfold mac_join. rewrite bind_eq, bind_ret_tt.
  change ("mac join " ++ "otaa") with "mac join otaa".
  rewrite execute_multiple_run. cbv zeta.
  change (rx ready (reads ready)) with (rx self (10 + reads self)).
  rewrite Hj.
  destruct first as [[|a b]|]; [| discriminate |];
    cbn [received fst snd trace advance ready set_hw_eui];
    rewrite Hev, <- app_assoc; reflexivity.
Qed.

Ltac failed_at p :=
  match goal with
  | |- exists done c later, otaa_steps ?h ?a ?k = _ /\ _ =>
      exists (firstn p (otaa_steps h a k))
  end;
  do 2 eexists; split; [reflexivity|];
  cbn [snd trace advance set_hw_eui log firstn otaa_steps performed app hd tl];
  flatten_events; reflexivity.

(** The events of the sequence when a command's answer is refused: the
    steps before that command, then its exchange, and nothing more. *)
Lemma otaa_abort_trace fuel self i answers bad e :
  len (app_eui self) = 16 ->
  len (app_key self) = 32 ->
  i < 10 ->
  Forall2 (fun validate got => refusal validate "ok" got = None)
    (firstn i otaa_validated) answers ->
  refusal (nth i otaa_validated true) "ok" bad = Some e ->
  next_reads (rx self) (reads self) (answers ++ [bad]) ->
  exists done c later,
    otaa_steps (text_of (hd None answers)) (app_eui self) (app_key self)
      = (done ++ Command c :: later)%list /\
    trace (snd (initialize_ttn_otaa fuel self)) =
    (trace self ++ performed done answers ++ exchange c 100 bad)%list.
Proof.
  intros Hlen1 Hlen2 Hi Hans Hbad Hn.
  do 10 (destruct i as [|i];
    [ cbn [firstn otaa_validated nth] in Hans, Hbad; invert_answers;
      cbn [hd]; split_reads Hn; subst;
      match goal with
      | |- context [initialize_ttn_otaa ?f ?s] =>
          let H := fresh "Hrun" in
          eassert (H : initialize_ttn_otaa f s = _)
            by (run_steps Hlen1 Hlen2; reflexivity);
          rewrite H
      end;
      first [ failed_at 0 | failed_at 2 | failed_at 3 | failed_at 4
            | failed_at 5 | failed_at 6 | failed_at 7 | failed_at 8
            | failed_at 9 | failed_at 10 ]
    | ]).
  lia.
Qed.

(** The events of the sequence when a credential has the wrong length: the
    steps before the command that carries it. *)
Lemma otaa_bad_appeui_trace fuel self answers :
  len (app_eui self) <> 16 ->
  Forall2 (fun validate got => refusal validate "ok" got = None)
    (firstn 3 otaa_validated) answers ->
  next_reads (rx self) (reads self) answers ->
  trace (snd (initialize_ttn_otaa fuel self)) =
  (trace self ++
   performed
     (firstn 4
        (otaa_steps (text_of (hd None answers)) (app_eui self) (app_key self)))
     answers)%list.
Proof.
  intros Hlen Hans Hn. apply Nat.eqb_neq in Hlen.
  cbn [firstn otaa_validated] in Hans. invert_answers.
  cbn [hd]. split_reads Hn. subst.
  expose_commands. do 6 run_step.
  rewrite bind_eq, mac_set_appeui_eq. simpl_state. rewrite Hlen.
  cbn [snd trace advance set_hw_eui log firstn otaa_steps performed app hd tl].
  flatten_events. reflexivity.
Qed.

Lemma otaa_bad_appkey_trace fuel self answers :
  len (app_eui self) = 16 ->
  len (app_key self) <> 32 ->
  Forall2 (fun validate got => refusal validate "ok" got = None)
    (firstn 4 otaa_validated) answers ->
  next_reads (rx self) (reads self) answers ->
  trace (snd (initialize_ttn_otaa fuel self)) =
  (trace self ++
   performed
     (firstn 5
        (otaa_steps (text_of (hd None answers)) (app_eui self) (app_key self)))
     answers)%list.
Proof.
  intros Hlen1 Hlen Hans Hn. apply Nat.eqb_neq in Hlen.
  cbn [firstn otaa_validated] in Hans. invert_answers.
  cbn [hd]. split_reads Hn. subst.
  expose_commands. do 6 run_step. check_length Hlen1. run_step.
  rewrite bind_eq, mac_set_appkey_eq. simpl_state. rewrite Hlen.
  cbn [snd trace advance set_hw_eui log firstn otaa_steps performed app hd tl].
  flatten_events. reflexivity.
Qed.

(** C3.  The join-and-configure sequence performs fifteen steps, in this
    order: hardware-EUI query, a delay of 100, reset band 868, set device
    EUI from the cached hardware EUI, set app EUI, set app key, set power
    index 1, set data rate 5, adaptive rate off, auto-reply off, save config,
    a delay of 3000, a feed of the watchdog, join with mode ["otaa"], a feed
    of the watchdog.  Eleven of the steps write a command, the ones listed,
    in that order.  The sequence returns, having performed the fifteen
    steps, when every single-response command is accepted and the join
    brings [["ok", "accepted"]]; it raises [RN2483InvalidResponse] when the
    join brings [["ok", "denied"]] or any other sequence, after every step
    but the last feed.  When a command's answer is refused, or a credential
    has the wrong length, the sequence stops there with that error: the
    steps before it have been performed, the commands written are those up
    to and including the refused one, and no further event or read
    follows. *)
Theorem initialize_ttn_otaa_spec fuel self :
  (forall hweui appeui appkey,
      length (otaa_steps hweui appeui appkey) = 15 /\
      commands_of (otaa_steps hweui appeui appkey)
        = otaa_commands hweui appeui appkey /\
      length (otaa_commands hweui appeui appkey) = 11) /\
  (len (app_eui self) = 16 -> len (app_key self) = 32 ->
   (forall answers ack verdict,
       Forall2 (fun validate got => refusal validate "ok" got = None)
         otaa_validated answers ->
       next_reads (rx self) (reads self) (answers ++ [ack; verdict; None]) ->
       received ack = Some "ok" ->
       received verdict = Some "accepted" ->
       1 < fuel ->
       exists final,
         initialize_ttn_otaa fuel self = (Return tt, final) /\
         trace final =
           (trace self ++
            performed
              (otaa_steps (text_of (hd None answers)) (app_eui self)
                 (app_key self))
              (answers ++ [ack; verdict; None]))%list /\
         writes_after self final
           (otaa_commands (text_of (hd None answers)) (app_eui self)
              (app_key self)) /\
         hw_eui final = Some (text_of (hd None answers)) /\
         reads final = 13 + reads self) /\
   (forall answers first rest lines,
       Forall2 (fun validate got => refusal validate "ok" got = None)
         otaa_validated answers ->
       next_reads (rx self) (reads self) (answers ++ first :: rest ++ [None]) ->
       truthy first = true ->
       Forall (fun r => r <> None) rest ->
       gather (first :: rest) = Some lines ->
       lines <> ["ok"; "accepted"] ->
       length rest < fuel ->
       exists final,
         initialize_ttn_otaa fuel self =
         (Raise (RN2483InvalidResponse (Lists lines ["ok"; "accepted"])),
          final) /\
         trace final =
           (trace self ++
            performed
              (removelast
                 (otaa_steps (text_of (hd None answers)) (app_eui self)
                    (app_key self)))
              (answers ++ first :: rest ++ [None]))%list /\
         writes_after self final
           (otaa_commands (text_of (hd None answers)) (app_eui self)
              (app_key self))) /\
   (forall answers first,
       Forall2 (fun validate got => refusal validate "ok" got = None)
         otaa_validated answers ->
       next_reads (rx self) (reads self) (answers ++ [first]) ->
       truthy first = false ->
       exists final,
         initialize_ttn_otaa fuel self = (Raise RN2483NoResponseError, final) /\
         trace final =
           (trace self ++
            performed
              (firstn 13
                 (otaa_steps (text_of (hd None answers)) (app_eui self)
                    (app_key self)))
              answers ++ exchange "mac join otaa" 5000 first)%list /\
         writes_after self final
           (otaa_commands (text_of (hd None answers)) (app_eui self)
              (app_key self))) /\
   (forall i answers bad e,
       i < 10 ->
       Forall2 (fun validate got => refusal validate "ok" got = None)
         (firstn i otaa_validated) answers ->
       refusal (nth i otaa_validated true) "ok" bad = Some e ->
       next_reads (rx self) (reads self) (answers ++ [bad]) ->
       exists final,
         initialize_ttn_otaa fuel self = (Raise e, final) /\
         writes_after self final
           (firstn (S i)
              (otaa_commands (text_of (hd None answers)) (app_eui self)
                 (app_key self))) /\
         reads final = S i + reads self /\
         exists done c later,
           otaa_steps (text_of (hd None answers)) (app_eui self) (app_key self)
             = (done ++ Command c :: later)%list /\
           trace final =
             (trace self ++ performed done answers
                ++ exchange c 100 bad)%list)) /\
  (len (app_eui self) <> 16 ->
   forall answers,
     Forall2 (fun validate got => refusal validate "ok" got = None)
       (firstn 3 otaa_validated) answers ->
     next_reads (rx self) (reads self) answers ->
     exists final,
       initialize_ttn_otaa fuel self =
       (Raise (RN2483InvalidInput
                 "The AppEUI needs to be exact 16 characters long!"), final) /\
       writes_after self final
         (firstn 3
            (otaa_commands (text_of (hd None answers)) (app_eui self)
               (app_key self))) /\
       reads final = 3 + reads self /\
       trace final =
         (trace self ++
          performed
            (firstn 4
               (otaa_steps (text_of (hd None answers)) (app_eui self)
                  (app_key self)))
            answers)%list) /\
  (len (app_eui self) = 16 -> len (app_key self) <> 32 ->
   forall answers,
     Forall2 (fun validate got => refusal validate "ok" got = None)
       (firstn 4 otaa_validated) answers ->
     next_reads (rx self) (reads self) answers ->
     exists final,
       initialize_ttn_otaa fuel self =
       (Raise (RN2483InvalidInput
                 "The AppKey needs to be exact 32 characters long!"), final) /\
       writes_after self final
         (firstn 4
            (otaa_commands (text_of (hd None answers)) (app_eui self)
               (app_key self))) /\
       reads final = 4 + reads self /\
       trace final =
         (trace self ++
          performed
            (firstn 5
               (otaa_steps (text_of (hd None answers)) (app_eui self)
                  (app_key self)))
            answers)%list) /\
  fst (initialize_ttn_otaa 2
         (demo (otaa_answers [line "ok"; line "denied"; None])))
    = Raise (RN2483InvalidResponse (Lists ["ok"; "denied"] ["ok"; "accepted"])).
Proof.
  split; [intros; repeat split|].
  split; [|split; [|split; [|reflexivity]]].
  - intros Hlen1 Hlen2. split; [|split; [|split]].
    + intros answers ack verdict Hans Hn Hack Hverdict Hfuel.
      assert (Ht : truthy ack = true) by (eapply received_truthy; eauto).
      assert (Hs : Forall (fun r : option bytes => r <> None) [verdict]).
      { constructor; [|constructor]. intros ->. discriminate. }
      assert (Hg : gather [ack; verdict] = Some ["ok"; "accepted"]).
      { cbn [gather]. rewrite Ht, (received_truthy _ _ Hverdict), Hack,
          Hverdict. reflexivity. }
      destruct (otaa_join fuel self answers ack [verdict] ["ok"; "accepted"]
                  Hlen1 Hlen2 Hans Hn Ht Hs Hg Hfuel)
        as (final & Hrun & Hw & Hc & Hr).
      pose proof (otaa_join_state fuel self answers ack [verdict]
                    ["ok"; "accepted"] Hlen1 Hlen2 Hans Hn Ht Hs Hg Hfuel)
        as Htr.
      rewrite Hrun in Htr. cbn [snd] in Htr.
      rewrite (proj2 (list_eqb_eq _ _) eq_refl) in Hrun, Htr.
      exists final. repeat split; auto.
    + intros answers first rest lines Hans Hn Ht Hs Hg Hl Hfuel.
      destruct (otaa_join fuel self answers first rest lines
                  Hlen1 Hlen2 Hans Hn Ht Hs Hg Hfuel)
        as (final & Hrun & Hw & _).
      pose proof (otaa_join_state fuel self answers first rest lines
                    Hlen1 Hlen2 Hans Hn Ht Hs Hg Hfuel) as Htr.
      rewrite Hrun in Htr. cbn [snd] in Htr.
      apply list_eqb_neq in Hl. rewrite Hl in Hrun, Htr.
      exists final. auto.
    + intros answers first Hans Hn Ht.
      destruct (otaa_join_silent fuel self answers first
                  Hlen1 Hlen2 Hans Hn Ht) as (final & Hrun & Hw).
      pose proof (otaa_join_silent_trace fuel self answers first
                    Hlen1 Hlen2 Hans Hn Ht) as Htr.
      rewrite Hrun in Htr. exists final. auto.
    + intros i answers bad e Hi Hans Hbad Hn.
      destruct (otaa_abort fuel self i answers bad e
                  Hlen1 Hlen2 Hi Hans Hbad Hn) as (final & Hrun & Hw & Hr).
      pose proof (otaa_abort_trace fuel self i answers bad e
                    Hlen1 Hlen2 Hi Hans Hbad Hn) as Htr.
      rewrite Hrun in Htr. exists final. auto.
  - intros Hlen answers Hans Hn.
    destruct (otaa_bad_appeui fuel self answers Hlen Hans Hn)
      as (final & Hrun & Hw & Hr).
    pose proof (otaa_bad_appeui_trace fuel self answers Hlen Hans Hn) as Htr.
    rewrite Hrun in Htr. exists final. auto.
  - intros Hlen1 Hlen2 answers Hans Hn.
    destruct (otaa_bad_appkey fuel self answers Hlen1 Hlen2 Hans Hn)
      as (final & Hrun & Hw & Hr).
    pose proof (otaa_bad_appkey_trace fuel self answers Hlen1 Hlen2 Hans Hn)
      as Htr.
    rewrite Hrun in Htr. exists final. auto.
Qed.

(** The sequence on a module that accepts every command and the join,
    event by event: ten commands of six events each, the two delays and
    the feed between them, the join with its two passes of the read loop,
    and the last feed. *)
Example initialize_ttn_otaa_sample_run :
  let self := demo (otaa_answers [line "ok"; line "accepted"; None]) in
  fst (initialize_ttn_otaa 2 self) = Return tt /\
  trace (snd (initialize_ttn_otaa 2 self)) =
    [
     Feed; Write ("sys get hweui" ++ CRLF); SleepMs 100; Feed;
     ReadLine (line "example_hw_eui"); Feed; SleepMs 100; Feed;
     Write ("mac reset 868" ++ CRLF); SleepMs 100; Feed;
     ReadLine (line "ok"); Feed; Feed;
     Write ("mac set deveui example_hw_eui" ++ CRLF); SleepMs 100; Feed;
     ReadLine (line "ok"); Feed; Feed;
     Write ("mac set appeui 0123456789012345" ++ CRLF); SleepMs 100; Feed;
     ReadLine (line "ok"); Feed; Feed;
     Write ("mac set appkey 01234567890123450123456789012345" ++ CRLF);
     SleepMs 100; Feed; ReadLine (line "ok"); Feed; Feed;
     Write ("mac set pwridx 1" ++ CRLF); SleepMs 100; Feed;
     ReadLine (line "ok"); Feed; Feed; Write ("mac set dr 5" ++ CRLF);
     SleepMs 100; Feed; ReadLine (line "ok"); Feed; Feed;
     Write ("mac set adr off" ++ CRLF); SleepMs 100; Feed;
     ReadLine (line "ok"); Feed; Feed; Write ("mac set ar off" ++ CRLF);
     SleepMs 100; Feed; ReadLine (line "ok"); Feed; Feed;
     Write ("mac save" ++ CRLF); SleepMs 100; Feed; ReadLine (line "ok");
     Feed; SleepMs 3000; Feed; Feed; Write ("mac join otaa" ++ CRLF);
     SleepMs 5000; Feed; ReadLine (line "ok"); Feed; SleepMs 5000;
     ReadLine (line "accepted"); Feed; Feed; SleepMs 5000; ReadLine None;
     Feed; Feed ] /\
  trace (snd (initialize_ttn_otaa 2 self)) =
    performed
      (otaa_steps "example_hw_eui" "0123456789012345"
         "01234567890123450123456789012345")
      (otaa_answers [line "ok"; line "accepted"; None]).
Proof.
  cbv zeta. split; [vm_compute; reflexivity|].
  split; vm_compute; reflexivity.
Qed.

(** ** The statements on sample runs *)

Lemma execute_multiple_spec_witness :
  fst (execute_multiple 2 "mac join otaa" true ["ok"; "accepted"]
         (demo [line "ok"; line "accepted"; None]))
    = Return ["ok"; "accepted"].
Proof.
  destruct (execute_multiple_spec 2 "mac join otaa" true ["ok"; "accepted"]
              (demo [line "ok"; line "accepted"; None])) as (_ & H & _).
  destruct (H (line "ok") [line "accepted"] ["ok"; "accepted"])
    as (_ & _ & Hret).
  - simpl. repeat split.
  - reflexivity.
  - constructor; [discriminate | constructor].
  - reflexivity.
  - simpl. lia.
  - apply Hret. right. reflexivity.
Defined.

Lemma _poll_until_ready_spec_witness :
  _poll_until_ready 2
    (demo [line "invalid_param"; line "invalid_param"; line "example_hw_eui"])
  = (Return tt,
     set_hw_eui "example_hw_eui"
       (advance 4
          (poll_trace [(line "invalid_param", line "invalid_param")]
             (line "example_hw_eui") None)
          (demo [line "invalid_param"; line "invalid_param";
                 line "example_hw_eui"]))).
Proof.
  apply (_poll_until_ready_spec
           [(line "invalid_param", line "invalid_param")] 2
           (demo [line "invalid_param"; line "invalid_param";
                  line "example_hw_eui"])
           (line "example_hw_eui") None "example_hw_eui").
  - simpl. repeat split.
  - constructor; [|constructor]. split; [reflexivity|].
    exists "invalid_param". reflexivity.
  - reflexivity.
  - discriminate.
  - simpl. lia.
Defined.

Lemma initialize_ttn_otaa_spec_witness :
  (exists final,
      initialize_ttn_otaa 2
        (demo (otaa_answers [line "ok"; line "accepted"; None]))
      = (Return tt, final) /\
      trace final =
        performed
          (otaa_steps "example_hw_eui" "0123456789012345"
             "01234567890123450123456789012345")
          (otaa_answers [line "ok"; line "accepted"; None]) /\
      writes_after (demo (otaa_answers [line "ok"; line "accepted"; None]))
        final
        (otaa_commands "example_hw_eui" "0123456789012345"
           "01234567890123450123456789012345") /\
      hw_eui final = Some "example_hw_eui") /\
  (exists final,
      initialize_ttn_otaa 2
        (demo [line "example_hw_eui"; line "ok"; line "invalid_param"])
      = (Raise (RN2483InvalidResponse (execute_message "invalid_param" "ok")),
         final) /\
      writes_after
        (demo [line "example_hw_eui"; line "ok"; line "invalid_param"]) final
        ["sys get hweui" ++ CRLF; "mac reset 868" ++ CRLF;
         "mac set deveui example_hw_eui" ++ CRLF] /\
      reads final = 3).
Proof.
  split.
  - destruct (initialize_ttn_otaa_spec 2
                (demo (otaa_answers [line "ok"; line "accepted"; None])))
      as (_ & H & _).
    destruct (H eq_refl eq_refl) as (Hok & _).
    destruct (Hok ([line "example_hw_eui"; line "ok"]
                     ++ repeat (line "ok") 8)%list
                (line "ok") (line "accepted"))
      as (final & Hrun & Htr & Hw & Hc & _).
    + simpl. repeat constructor.
    + simpl. repeat split.
    + reflexivity.
    + reflexivity.
    + lia.
    + exists final. repeat split; assumption.
  - destruct (initialize_ttn_otaa_spec 2
                (demo [line "example_hw_eui"; line "ok"; line "invalid_param"]))
      as (_ & H & _).
    destruct (H eq_refl eq_refl) as (_ & _ & _ & Habort).
    destruct (Habort 2 [line "example_hw_eui"; line "ok"]
                (line "invalid_param")
                (RN2483InvalidResponse (execute_message "invalid_param" "ok")))
      as (final & Hrun & Hw & Hr & _).
    + lia.
    + simpl. repeat constructor.
    + reflexivity.
    + simpl. repeat split.
    + exists final. repeat split; assumption.
Defined.

Lemma execute_single_response_witness :
  fst (execute "sys get ver" false "ok" (demo [line "demoversion"]))
    = Return "demoversion" /\
  fst (execute "mac save" true "ok" (demo [line "invalid_param"]))
    = Raise (RN2483InvalidResponse
               (Text "The response invalid_param didn't match the exptected ok!")).
Proof.
  split.
  - destruct (execute_single_response "sys get ver" false "ok"
                (demo [line "demoversion"])) as (_ & H).
    destruct (H ("demoversion" ++ CRLF) ("demoversion" ++ CRLF))
      as (_ & Hret).
    + reflexivity.
    + discriminate.
    + reflexivity.
    + apply Hret. left. reflexivity.
  - destruct (execute_single_response "mac save" true "ok"
                (demo [line "invalid_param"])) as (_ & H).
    destruct (H ("invalid_param" ++ CRLF) ("invalid_param" ++ CRLF))
      as (Hinv & _).
    + reflexivity.
    + discriminate.
    + reflexivity.
    + apply Hinv. split; [reflexivity | discriminate].
Defined.

Lemma sys_sleep_spec_witness :
  sys_sleep 100 (demo [])
    = (Return tt,
       advance 0 [Write ("sys sleep 100" ++ CRLF); Feed] (demo [])) /\
  sys_sleep 4294967297 (demo [])
    = (Raise (RN2483InvalidInput
                "The length to sleep must be between 100 and 4294967296!"),
       demo []).
Proof.
  split.
  - apply (proj1 (sys_sleep_spec 100 (demo []))). lia.
  - apply (proj2 (sys_sleep_spec 4294967297 (demo []))). lia.
Defined.

Lemma mac_set_appeui_appkey_spec_witness :
  mac_set_appeui "wrong" (demo [line "ok"])
    = (Raise (RN2483InvalidInput
                "The AppEUI needs to be exact 16 characters long!"),
       demo [line "ok"]) /\
  fst (mac_set_appkey "01234567890123450123456789012345" (demo [line "ok"]))
    = Return tt.
Proof.
  destruct (mac_set_appeui_appkey_spec "wrong"
              "01234567890123450123456789012345" (demo [line "ok"]))
    as (Heui & _ & _ & Hkey).
  split.
  - apply Heui. simpl. lia.
  - destruct (Hkey eq_refl) as (_ & _ & Hret & _).
    apply Hret. reflexivity.
Defined.

Lemma send_spec_witness :
  fst (send "PeterMaffay" (demo [line "ok"])) = Return tt.
Proof.
  destruct (send_spec "PeterMaffay" (demo [line "ok"]))
    as (_ & _ & Hret & _).
  apply Hret. exists "ok". reflexivity.
Defined.

Lemma read_loop_ends_on_timeout_only_witness :
  exists fuel,
    fst (execute_multiple fuel "mac join otaa" true ["ok"; "accepted"]
           (demo [line "ok"; line "accepted"])) <> OutOfFuel.
Proof.
  destruct read_loop_ends_on_timeout_only as (_ & Hmain & _).
  destruct (Hmain "mac join otaa" true ["ok"; "accepted"]
              (demo [line "ok"; line "accepted"])) as (Hends & _).
  - reflexivity.
  - apply utf8_line_script.
    repeat constructor; intros b [= <-]; reflexivity.
  - apply Hends. exists 1. reflexivity.
Defined.

Lemma sys_get_hweui_caches_every_answer_witness :
  hw_eui (snd (sys_get_hweui (demo [line "example_hw_eui"])))
    = Some "example_hw_eui" /\
  exists later,
    writes_after (demo [line "invalid_param"; line "ok"])
      (snd (initialize_ttn_otaa 2 (demo [line "invalid_param"; line "ok"])))
      (["sys get hweui" ++ CRLF; "mac reset 868" ++ CRLF;
        "mac set deveui invalid_param" ++ CRLF] ++ later).
Proof.
  destruct sys_get_hweui_caches_every_answer as (Hcache & _ & Hjoin).
  split.
  - apply (Hcache (demo [line "example_hw_eui"]) "example_hw_eui").
    reflexivity.
  - apply (Hjoin 2 (demo [line "invalid_param"; line "ok"])
             "invalid_param" "ok"); reflexivity.
Defined.

(** ** What every method preserves

    A relation between the instance before and after a call that holds
    across each primitive action holds across every method.  It is used
    below for three relations: the trace only grows; the cached hardware
    EUI stays; every write ends with the line terminator. *)

Create HintDb preserved.

Section Preservation.

Variable R : RN2483 -> RN2483 -> Prop.
Hypothesis R_refl : forall s, R s s.
Hypothesis R_trans : forall a b c, R a b -> R b c -> R a c.
Hypothesis R_log :
  forall e s,
    (forall data, e = Write data -> ends_with_crlf data) -> R s (log e s).
Hypothesis R_consume : forall s, R s (consume s).

Lemma preserves_bind {A B} (c : M A) (k : A -> M B) :
  preserves R c -> (forall a, preserves R (k a)) -> preserves R (bind c k).
Proof.
  intros Hc Hk self. unfold bind. specialize (Hc self).
  destruct (c self) as [[a|e|] s']; cbn [snd] in *; auto.
  eapply R_trans; [exact Hc | apply Hk].
Qed.

Lemma preserves_ret {A} (a : A) : preserves R (ret a).
Proof. intros self. apply R_refl. Qed.

Lemma preserves_raise {A} e : preserves R (@raise A e).
Proof. intros self. apply R_refl. Qed.

Lemma preserves_wdt_feed : preserves R wdt_feed.
Proof. intros self. apply R_log. discriminate. Qed.

Lemma preserves_sleep_ms ms : preserves R (sleep_ms ms).
Proof. intros self. apply R_log. discriminate. Qed.

Lemma preserves_pin_high : preserves R reset_pin_high.
Proof. intros self. apply R_log. discriminate. Qed.

Lemma preserves_pin_low : preserves R reset_pin_low.
Proof. intros self. apply R_log. discriminate. Qed.

Lemma preserves_sendbreak : preserves R uart_sendbreak.
Proof. intros self. apply R_log. discriminate. Qed.

Lemma preserves_write_line command :
  preserves R (uart_write (encode_utf8 (command ++ CRLF))).
Proof.
  intros self. apply R_log. intros data [= <-]. now exists command.
Qed.

Lemma preserves_readline : preserves R uart_readline.
Proof.
  intros self. cbn. eapply R_trans; [apply R_consume|].
  apply R_log. discriminate.
Qed.

Lemma preserves_read : preserves R uart_read.
Proof.
  intros self. cbn. eapply R_trans; [apply R_consume|].
  apply R_log. discriminate.
Qed.

Lemma preserves_decode response : preserves R (decode response).
Proof.
  intros self. unfold decode. destruct (decode_utf8 response); apply R_refl.
Qed.

Lemma preserves_get {A} (f : RN2483 -> A) :
  preserves R (fun self => (Return (f self), self)).
Proof. intros self. apply R_refl. Qed.

Lemma preserves_get_hw_eui : preserves R get_hw_eui.
Proof.
  intros self. unfold get_hw_eui. destruct (hw_eui self); apply R_refl.
Qed.

#[local] Hint Resolve preserves_ret preserves_raise preserves_wdt_feed
  preserves_sleep_ms preserves_pin_high preserves_pin_low
  preserves_sendbreak preserves_write_line preserves_readline
  preserves_read preserves_decode preserves_get_hw_eui : preserved.

Ltac preserved :=
  repeat first
    [ progress auto with preserved
    | apply preserves_bind; [|intros ?]
    | match goal with
      | |- preserves _ (if ?b then _ else _) => destruct b
      | |- preserves _ (let _ := _ in _) => cbv zeta
      end
    | apply (preserves_get app_eui) | apply (preserves_get app_key) ].

Lemma preserves_execute command validate valid :
  preserves R (execute command validate valid).
Proof. unfold execute. preserved. Qed.

Lemma preserves_read_loop fuel :
  forall response results, preserves R (read_loop fuel response results).
Proof.
  induction fuel as [|fuel IH]; intros [b|] results.
  - intros self. apply R_refl.
  - apply preserves_ret.
  - cbn [read_loop]. preserved.
  - apply preserves_ret.
Qed.

#[local] Hint Resolve preserves_execute preserves_read_loop : preserved.

Lemma preserves_execute_multiple fuel command validate valid :
  preserves R (execute_multiple fuel command validate valid).
Proof. unfold execute_multiple. preserved. Qed.

#[local] Hint Resolve preserves_execute_multiple : preserved.

Lemma preserves_sys_sleep length : preserves R (sys_sleep length).
Proof.
  unfold sys_sleep. preserved.
  apply (preserves_write_line ("sys sleep " ++ str_of_int length)).
Qed.

Lemma preserves_reset wait_in_ms : preserves R (reset wait_in_ms).
Proof. unfold reset. preserved. Qed.

Lemma preserves_send data : preserves R (send data).
Proof. unfold send. preserved. Qed.

(** The calls that do not run the hardware-EUI query. *)
Lemma preserves_invoke_plain fuel m :
  queries_hweui m = false -> preserves R (invoke fuel m).
Proof.
  destruct m; cbn [queries_hweui invoke]; intros H; try discriminate.
  all: try apply preserves_reset; try apply preserves_sys_sleep;
    try apply preserves_send.
  all: unfold sys_get_ver, mac_reset, mac_set_deveui, mac_set_appeui,
    mac_set_appkey, mac_set_pwridx, mac_set_dr, mac_set_adr, mac_set_ar,
    radio_set_pwr, mac_save, mac_join; preserved.
Qed.

Section WithAssignment.

Hypothesis R_assign : forall v s, R s (set_hw_eui v s).

Lemma preserves_assign_hw_eui v : preserves R (assign_hw_eui v).
Proof. intros self. apply R_assign. Qed.

#[local] Hint Resolve preserves_assign_hw_eui : preserved.

Lemma preserves_sys_get_hweui : preserves R sys_get_hweui.
Proof. unfold sys_get_hweui. preserved. Qed.

#[local] Hint Resolve preserves_sys_get_hweui : preserved.

Lemma preserves_poll_loop fuel : preserves R (poll_loop fuel).
Proof.
  induction fuel as [|fuel IH].
  - intros self. apply R_refl.
  - cbn [poll_loop]. preserved.
Qed.

#[local] Hint Resolve preserves_poll_loop : preserved.

Lemma preserves__poll_until_ready fuel : preserves R (_poll_until_ready fuel).
Proof. unfold _poll_until_ready. preserved. Qed.

Lemma preserves___init__ fuel : preserves R (__init__ fuel).
Proof.
  unfold __init__. apply preserves_bind; [apply preserves_reset|].
  intros _. apply preserves__poll_until_ready.
Qed.

Lemma preserves_invoke fuel m : preserves R (invoke fuel m).
Proof.
  destruct (queries_hweui m) eqn:Q;
    [|now apply preserves_invoke_plain].
  destruct m; try discriminate; cbn [invoke].
  - apply preserves__poll_until_ready.
  - unfold send_break_condition. preserved.
  - preserved.
  - unfold initialize_ttn_otaa, mac_reset, mac_set_deveui, mac_set_appeui,
      mac_set_appkey, mac_set_pwridx, mac_set_dr, mac_set_adr, mac_set_ar,
      mac_save, mac_join.
    preserved.
Qed.

Lemma preserves_session fuel ms :
  forall self, R self (session fuel ms self).
Proof.
  induction ms as [|m ms IH]; intros self; cbn [session].
  - apply R_refl.
  - eapply R_trans; [apply preserves_invoke | apply IH].
Qed.

End WithAssignment.

Lemma preserves_session_plain fuel ms :
  Forall (fun m => queries_hweui m = false) ms ->
  forall self, R self (session fuel ms self).
Proof.
  induction 1 as [|m ms Hm _ IH]; intros self; cbn [session].
  - apply R_refl.
  - eapply R_trans; [exact (preserves_invoke_plain fuel m Hm self) | apply IH].
Qed.

End Preservation.

(** ** Invariants of an instance over its lifetime *)

Lemma extends_log e self : extends self (log e self).
Proof. apply (extends_advance 0 [e]). Qed.

Lemma extends_consume self : extends self (consume self).
Proof.
  unfold extends; cbn. repeat split; auto. exists []. now rewrite app_nil_r.
Qed.

(** X1.  Whatever calls are made on an instance after its construction, in
    whatever order and whether or not some of them raise: the credentials
    are those given to the constructor, the serial line is the same, no
    read is undone and the log of actions is only extended. *)
Theorem lifetime_extends fuel line appeui appkey ms :
  let created := snd (__init__ fuel (boot line appeui appkey)) in
  let final := session fuel ms created in
  app_eui final = appeui /\
  app_key final = appkey /\
  rx final = line /\
  reads created <= reads final /\
  exists evs, trace final = (trace created ++ evs)%list.
Proof.
  cbv zeta.
  pose proof (preserves___init__ extends extends_refl extends_trans
                (fun e s _ => extends_log e s) extends_consume
                extends_set_hw_eui fuel (boot line appeui appkey)) as Hc.
  pose proof (preserves_session extends extends_refl extends_trans
                (fun e s _ => extends_log e s) extends_consume
                extends_set_hw_eui fuel ms
                (snd (__init__ fuel (boot line appeui appkey)))) as Hs.
  destruct Hc as (Hrx & Ha & Hk & _ & _).
  destruct Hs as (Hrx' & Ha' & Hk' & Hr & Ht).
  rewrite Ha', Ha, Hk', Hk, Hrx', Hrx. auto.
Qed.

Lemma same_hw_eui_trans a b c :
  same_hw_eui a b -> same_hw_eui b c -> same_hw_eui a c.
Proof. unfold same_hw_eui. congruence. Qed.

(** X2.  The cached hardware EUI is changed by the hardware-EUI query only:
    a sequence of calls none of which runs that query (directly, or through
    the readiness poll, the break condition or the join sequence) leaves
    [hw_eui] as it was, whatever the module answers. *)
Theorem hw_eui_changed_by_query_only fuel ms self :
  Forall (fun m => queries_hweui m = false) ms ->
  hw_eui (session fuel ms self) = hw_eui self.
Proof.
  intros H.
  apply (preserves_session_plain same_hw_eui (fun s => eq_refl)
           same_hw_eui_trans (fun e s _ => eq_refl) (fun s => eq_refl)
           fuel ms H self).
Qed.

Lemma hw_eui_changed_by_query_only_witness :
  hw_eui (session 2
            [SysGetVer; MacSetPwridx 1; Send "PeterMaffay";
             MacJoin "otaa"; SysSleep 100]
            (set_hw_eui "example_hw_eui"
               (demo [line "invalid_param"; line "ok"; line "ok"])))
  = Some "example_hw_eui".
Proof.
  apply (hw_eui_changed_by_query_only 2
           [SysGetVer; MacSetPwridx 1; Send "PeterMaffay";
            MacJoin "otaa"; SysSleep 100]
           (set_hw_eui "example_hw_eui"
              (demo [line "invalid_param"; line "ok"; line "ok"]))).
  repeat constructor.
Defined.

Lemma keeps_crlf_log e self :
  (forall data, e = Write data -> ends_with_crlf data) ->
  keeps_crlf self (log e self).
Proof.
  intros He H. unfold crlf_terminated in *. cbn [trace log].
  rewrite writes_of_app. apply Forall_app. split; [exact H|].
  destruct e; cbn; constructor; auto.
Qed.

(** X3.  Every byte string an instance ever writes to the serial line ends
    with the line terminator [\r\n]: this holds for the constructor and for
    every sequence of calls made afterwards, whatever their arguments. *)
Theorem every_write_ends_with_crlf fuel line appeui appkey ms :
  Forall (fun data => exists command, data = command ++ CRLF)
    (writes_of
       (trace (session fuel ms (snd (__init__ fuel (boot line appeui appkey)))))).
Proof.
  assert (Hrefl : forall s, keeps_crlf s s) by (intros s H; exact H).
  assert (Htrans : forall a b c, keeps_crlf a b -> keeps_crlf b c ->
                                 keeps_crlf a c)
    by (intros a b c H1 H2 H; auto).
  assert (Hconsume : forall s, keeps_crlf s (consume s))
    by (intros s H; exact H).
  assert (Hassign : forall v s, keeps_crlf s (set_hw_eui v s))
    by (intros v s H; exact H).
  apply (preserves_session keeps_crlf Hrefl Htrans keeps_crlf_log Hconsume
           Hassign fuel ms).
  apply (preserves___init__ keeps_crlf Hrefl Htrans keeps_crlf_log Hconsume
           Hassign fuel).
  constructor.
Qed.

(** ** The other commands *)

(** A command whose single response is not validated. *)
Lemma unvalidated_command_spec command self :
  let run := (execute command false "ok" ;; ret tt) self in
  let got := rx self (reads self) in
  writes_after self (snd run) [command ++ CRLF] /\
  reads (snd run) = S (reads self) /\
  (fst run = Return tt <-> exists text, received got = Some text) /\
  (truthy got = false -> fst run = Raise RN2483NoResponseError) /\
  (forall m, fst run <> Raise (RN2483InvalidResponse m)) /\
  (forall m, fst run <> Raise (RN2483InvalidInput m)).
Proof.
  cbv zeta. rewrite bind_ret_tt. cbn [fst snd].
  split; [apply execute_writes|]. split; [apply execute_reads|].
  destruct (received (rx self (reads self))) as [text|] eqn:Hr.
  - rewrite (execute_received _ _ _ _ _ Hr). cbn.
    rewrite (received_truthy _ _ Hr).
    repeat split; eauto; discriminate.
  - destruct (truthy (rx self (reads self))) eqn:Ht.
    + rewrite (execute_garbled _ _ _ _ Ht Hr). cbn.
      repeat split; try discriminate. intros [? ?]; discriminate.
    + rewrite (execute_silent _ _ _ _ Ht). cbn.
      repeat split; try discriminate. intros [? ?]; discriminate.
Qed.

(** X4.  [mac_set_pwridx] accepts the indices 0 to 5, 0 included: outside
    that range it raises [RN2483InvalidInput] and leaves the serial line
    untouched; inside it writes ["mac set pwridx {idx}\r\n"], reads one
    response and returns exactly when that response is ["ok"]. *)
Theorem mac_set_pwridx_spec (pwrindex : Z) self :
  let got := rx self (reads self) in
  ((pwrindex < 0 \/ pwrindex > 5)%Z ->
   mac_set_pwridx pwrindex self =
   (Raise (RN2483InvalidInput
      "The power index needs to be between 0 and 5 for 433 MHz and 1 to 5 for 868 MHz!"),
    self)) /\
  ((0 <= pwrindex <= 5)%Z ->
   let run := mac_set_pwridx pwrindex self in
   writes_after self (snd run)
     ["mac set pwridx " ++ str_of_int pwrindex ++ CRLF] /\
   reads (snd run) = S (reads self) /\
   (fst run = Return tt <-> received got = Some "ok") /\
   (forall decoded, received got = Some decoded -> decoded <> "ok" ->
      fst run = Raise (RN2483InvalidResponse (execute_message decoded "ok")))).
Proof.
  cbv zeta. unfold mac_set_pwridx. split; intros H.
  - replace ((pwrindex <? 0) || (pwrindex >? 5))%Z with true
      by (symmetry; apply orb_true_iff; lia).
    reflexivity.
  - replace ((pwrindex <? 0) || (pwrindex >? 5))%Z with false
      by (symmetry; apply orb_false_iff; split; lia).
    exact (ok_command_spec ("mac set pwridx " ++ str_of_int pwrindex) self).
Qed.

Lemma mac_set_pwridx_spec_witness :
  fst (mac_set_pwridx 6 (demo [line "ok"])) =
    Raise (RN2483InvalidInput
      "The power index needs to be between 0 and 5 for 433 MHz and 1 to 5 for 868 MHz!") /\
  fst (mac_set_pwridx 0 (demo [line "ok"])) = Return tt.
Proof.
  split.
  - rewrite (proj1 (mac_set_pwridx_spec 6 (demo [line "ok"]))) by lia.
    reflexivity.
  - destruct (proj2 (mac_set_pwridx_spec 0 (demo [line "ok"])))
      as (_ & _ & Hret & _); [lia|].
    apply Hret. reflexivity.
Defined.

(** X5.  [mac_set_dr] accepts the data rates 0 to 7: outside that range it
    raises [RN2483InvalidInput] and leaves the serial line untouched; inside
    it writes ["mac set dr {dr}\r\n"], reads one response and returns
    exactly when that response is ["ok"]. *)
Theorem mac_set_dr_spec (datarate : Z) self :
  let got := rx self (reads self) in
  ((datarate < 0 \/ datarate > 7)%Z ->
   mac_set_dr datarate self =
   (Raise (RN2483InvalidInput "The data rate need to be between 0 and 7!"),
    self)) /\
  ((0 <= datarate <= 7)%Z ->
   let run := mac_set_dr datarate self in
   writes_after self (snd run) ["mac set dr " ++ str_of_int datarate ++ CRLF] /\
   reads (snd run) = S (reads self) /\
   (fst run = Return tt <-> received got = Some "ok") /\
   (forall decoded, received got = Some decoded -> decoded <> "ok" ->
      fst run = Raise (RN2483InvalidResponse (execute_message decoded "ok")))).
Proof.
  cbv zeta. unfold mac_set_dr. split; intros H.
  - replace ((datarate <? 0) || (datarate >? 7))%Z with true
      by (symmetry; apply orb_true_iff; lia).
    reflexivity.
  - replace ((datarate <? 0) || (datarate >? 7))%Z with false
      by (symmetry; apply orb_false_iff; split; lia).
    exact (ok_command_spec ("mac set dr " ++ str_of_int datarate) self).
Qed.

Lemma mac_set_dr_spec_witness :
  fst (mac_set_dr 8 (demo [line "ok"])) =
    Raise (RN2483InvalidInput "The data rate need to be between 0 and 7!") /\
  writes_after (demo [line "ok"]) (snd (mac_set_dr 7 (demo [line "ok"])))
    ["mac set dr 7" ++ CRLF].
Proof.
  split.
  - rewrite (proj1 (mac_set_dr_spec 8 (demo [line "ok"]))) by lia.
    reflexivity.
  - destruct (proj2 (mac_set_dr_spec 7 (demo [line "ok"])))
      as (Hw & _); [lia|]. exact Hw.
Defined.

(** X6.  [radio_set_pwr] accepts the indices 3 to 15: outside that range it
    raises [RN2483InvalidInput] and leaves the serial line untouched; inside
    it writes ["radio set pwr {idx}\r\n"], reads one response and returns
    exactly when that response is ["ok"]. *)
Theorem radio_set_pwr_spec (index : Z) self :
  let got := rx self (reads self) in
  ((index < 3 \/ index > 15)%Z ->
   radio_set_pwr index self =
   (Raise (RN2483InvalidInput "The power index must be between 3 and 15!"),
    self)) /\
  ((3 <= index <= 15)%Z ->
   let run := radio_set_pwr index self in
   writes_after self (snd run) ["radio set pwr " ++ str_of_int index ++ CRLF] /\
   reads (snd run) = S (reads self) /\
   (fst run = Return tt <-> received got = Some "ok") /\
   (forall decoded, received got = Some decoded -> decoded <> "ok" ->
      fst run = Raise (RN2483InvalidResponse (execute_message decoded "ok")))).
Proof.
  cbv zeta. unfold radio_set_pwr. split; intros H.
  - replace ((index <? 3) || (index >? 15))%Z with true
      by (symmetry; apply orb_true_iff; lia).
    reflexivity.
  - replace ((index <? 3) || (index >? 15))%Z with false
      by (symmetry; apply orb_false_iff; split; lia).
    exact (ok_command_spec ("radio set pwr " ++ str_of_int index) self).
Qed.

Lemma radio_set_pwr_spec_witness :
  fst (radio_set_pwr 2 (demo [line "ok"])) =
    Raise (RN2483InvalidInput "The power index must be between 3 and 15!") /\
  fst (radio_set_pwr 15 (demo [line "ok"])) = Return tt.
Proof.
  split.
  - rewrite (proj1 (radio_set_pwr_spec 2 (demo [line "ok"]))) by lia.
    reflexivity.
  - destruct (proj2 (radio_set_pwr_spec 15 (demo [line "ok"])))
      as (_ & _ & Hret & _); [lia|].
    apply Hret. reflexivity.
Defined.

(** X7.  [mac_set_adr] and [mac_set_ar] write ["mac set adr on\r\n"] or
    ["... off\r\n"] (respectively ["mac set ar ..."]) according to the flag,
    read one response and return exactly when it is ["ok"]; any other text
    raises [RN2483InvalidResponse]. *)
Theorem mac_set_adr_ar_spec (on : bool) self :
  let got := rx self (reads self) in
  let word := if on then "on" else "off" in
  (let run := mac_set_adr on self in
   writes_after self (snd run) ["mac set adr " ++ word ++ CRLF] /\
   reads (snd run) = S (reads self) /\
   (fst run = Return tt <-> received got = Some "ok") /\
   (forall decoded, received got = Some decoded -> decoded <> "ok" ->
      fst run = Raise (RN2483InvalidResponse (execute_message decoded "ok")))) /\
  (let run := mac_set_ar on self in
   writes_after self (snd run) ["mac set ar " ++ word ++ CRLF] /\
   reads (snd run) = S (reads self) /\
   (fst run = Return tt <-> received got = Some "ok") /\
   (forall decoded, received got = Some decoded -> decoded <> "ok" ->
      fst run = Raise (RN2483InvalidResponse (execute_message decoded "ok")))).
Proof.
  cbv zeta. unfold mac_set_adr, mac_set_ar, _bool_to_on_off. split.
  - exact (ok_command_spec ("mac set adr " ++ (if on then "on" else "off")) self).
  - exact (ok_command_spec ("mac set ar " ++ (if on then "on" else "off")) self).
Qed.

Lemma mac_set_adr_ar_spec_witness :
  fst (mac_set_adr true (demo [line "invalid_param"]))
    = Raise (RN2483InvalidResponse (execute_message "invalid_param" "ok")).
Proof.
  destruct (mac_set_adr_ar_spec true (demo [line "invalid_param"]))
    as ((_ & _ & _ & Hinv) & _).
  apply Hinv; [reflexivity | discriminate].
Defined.

(** X8.  [mac_reset] checks neither its argument nor the answer: for every
    band, negative ones included, it writes ["mac reset {band}\r\n"], reads
    one response and returns as soon as a line was received, whatever its
    text; it raises [RN2483NoResponseError] when nothing was read and never
    [RN2483InvalidInput] or [RN2483InvalidResponse]. *)
Theorem mac_reset_spec (band : Z) self :
  let run := mac_reset band self in
  let got := rx self (reads self) in
  writes_after self (snd run) ["mac reset " ++ str_of_int band ++ CRLF] /\
  reads (snd run) = S (reads self) /\
  (fst run = Return tt <-> exists text, received got = Some text) /\
  (truthy got = false -> fst run = Raise RN2483NoResponseError) /\
  (forall m, fst run <> Raise (RN2483InvalidResponse m)) /\
  (forall m, fst run <> Raise (RN2483InvalidInput m)).
Proof.
  exact (unvalidated_command_spec ("mac reset " ++ str_of_int band) self).
Qed.

Lemma mac_reset_spec_witness :
  fst (mac_reset (-1) (demo [line "invalid_param"])) = Return tt /\
  fst (mac_reset 868 (demo [])) = Raise RN2483NoResponseError.
Proof.
  split.
  - destruct (mac_reset_spec (-1) (demo [line "invalid_param"]))
      as (_ & _ & Hret & _).
    apply Hret. exists "invalid_param". reflexivity.
  - destruct (mac_reset_spec 868 (demo [])) as (_ & _ & _ & Hsilent & _).
    apply Hsilent. reflexivity.
Defined.

(** X9.  [mac_set_deveui] checks no length, unlike [mac_set_appeui]: for
    every argument, the empty string included, it writes
    ["mac set deveui {deveui}\r\n"], reads one response and returns exactly
    when it is ["ok"]; it never raises [RN2483InvalidInput]. *)
Theorem mac_set_deveui_spec (deveui : str) self :
  let run := mac_set_deveui deveui self in
  let got := rx self (reads self) in
  writes_after self (snd run) ["mac set deveui " ++ deveui ++ CRLF] /\
  reads (snd run) = S (reads self) /\
  (fst run = Return tt <-> received got = Some "ok") /\
  (forall decoded, received got = Some decoded -> decoded <> "ok" ->
     fst run = Raise (RN2483InvalidResponse (execute_message decoded "ok"))) /\
  (forall m, fst run <> Raise (RN2483InvalidInput m)).
Proof.
  cbv zeta. unfold mac_set_deveui.
  destruct (ok_command_spec ("mac set deveui " ++ deveui) self)
    as (Hw & Hr & Hret & Hinv).
  repeat split; try apply Hret; auto.
  intros m. rewrite bind_ret_tt. cbn [fst]. rewrite execute_run. cbv zeta.
  destruct (rx self (reads self)) as [[|a b]|]; try discriminate.
  destruct (decode_utf8 (String a b)) as [text|]; try discriminate.
  destruct (true && negb (strip text =? "ok")); discriminate.
Qed.

Lemma mac_set_deveui_spec_witness :
  fst (mac_set_deveui EmptyString (demo [line "invalid_param"]))
    = Raise (RN2483InvalidResponse (execute_message "invalid_param" "ok")).
Proof.
  destruct (mac_set_deveui_spec EmptyString (demo [line "invalid_param"]))
    as (_ & _ & _ & Hinv & _).
  apply Hinv; [reflexivity | discriminate].
Defined.

(** X10.  [sys_get_ver] returns the decoded, stripped line whatever it is,
    raises [RN2483NoResponseError] exactly when nothing was read, never
    raises [RN2483InvalidResponse], and, unlike [sys_get_hweui], leaves the
    cached hardware EUI untouched. *)
Theorem sys_get_ver_spec self :
  let run := sys_get_ver self in
  let got := rx self (reads self) in
  writes_after self (snd run) ["sys get ver" ++ CRLF] /\
  reads (snd run) = S (reads self) /\
  hw_eui (snd run) = hw_eui self /\
  (forall decoded, fst run = Return decoded <-> received got = Some decoded) /\
  (fst run = Raise RN2483NoResponseError <-> truthy got = false) /\
  (forall m, fst run <> Raise (RN2483InvalidResponse m)).
Proof.
  cbv zeta. unfold sys_get_ver.
  split; [apply execute_writes|]. split; [apply execute_reads|].
  split.
  { destruct (execute_exchange "sys get ver" false "ok" self)
      as (tail & -> & _). reflexivity. }
  destruct (received (rx self (reads self))) as [text|] eqn:Hr.
  - rewrite (execute_received _ _ _ _ _ Hr). cbn.
    rewrite (received_truthy _ _ Hr).
    repeat split; try discriminate; congruence.
  - destruct (truthy (rx self (reads self))) eqn:Ht.
    + rewrite (execute_garbled _ _ _ _ Ht Hr). cbn.
      repeat split; discriminate.
    + rewrite (execute_silent _ _ _ _ Ht). cbn.
      repeat split; try discriminate; auto.
Qed.

(** X11.  [mac_join] writes ["mac join {mode}\r\n"] for every mode, raises
    [RN2483NoResponseError] when the first read brings nothing, and
    otherwise returns exactly when the lines read before the first timeout
    are ["ok"] and ["accepted"], raising [RN2483InvalidResponse] with both
    sequences on any other one.  It never changes the cached hardware
    EUI. *)
Theorem mac_join_spec fuel (mode : str) self :
  let run := mac_join fuel mode self in
  writes_after self (snd run) ["mac join " ++ mode ++ CRLF] /\
  hw_eui (snd run) = hw_eui self /\
  (truthy (rx self (reads self)) = false ->
   fst run = Raise RN2483NoResponseError) /\
  (forall first rest lines,
      next_reads (rx self) (reads self) (first :: rest ++ [None]) ->
      truthy first = true ->
      Forall (fun r => r <> None) rest ->
      gather (first :: rest) = Some lines ->
      length rest < fuel ->
      reads (snd run) = reads self + length rest + 2 /\
      (fst run = Return tt <-> lines = ["ok"; "accepted"]) /\
      (lines <> ["ok"; "accepted"] ->
       fst run = Raise (RN2483InvalidResponse
                          (Lists lines ["ok"; "accepted"])))).
Proof.
  cbv zeta. unfold mac_join. rewrite bind_ret_tt. cbn [fst snd].
  split; [apply execute_multiple_writes|].
  split; [apply execute_multiple_hw_eui|].
  split.
  - intros Ht.
    now rewrite (proj2 (execute_multiple_silent fuel ("mac join " ++ mode)
                          true ["ok"; "accepted"] self) Ht).
  - intros first rest lines Hn Ht Hs Hg Hf.
    destruct (execute_multiple_lines fuel ("mac join " ++ mode) true
                ["ok"; "accepted"] self first rest lines Hn Ht Hs Hg Hf)
      as (Hreads & Hinv & Hret).
    split; [exact Hreads|].
    destruct (list_eq_dec string_dec lines ["ok"; "accepted"]) as [E|N].
    + rewrite (proj2 Hret (or_intror E)). split; [tauto | contradiction].
    + rewrite (proj2 Hinv (conj eq_refl N)).
      split; [split; [discriminate | contradiction] | reflexivity].
Qed.

Lemma mac_join_spec_witness :
  fst (mac_join 2 "otaa" (demo [line "ok"; line "denied"; None]))
    = Raise (RN2483InvalidResponse (Lists ["ok"; "denied"] ["ok"; "accepted"])).
Proof.
  destruct (mac_join_spec 2 "otaa" (demo [line "ok"; line "denied"; None]))
    as (_ & _ & _ & H).
  destruct (H (line "ok") [line "denied"] ["ok"; "denied"])
    as (_ & _ & Hinv).
  - simpl. repeat split.
  - reflexivity.
  - constructor; [discriminate | constructor].
  - reflexivity.
  - simpl. lia.
  - apply Hinv. discriminate.
Defined.

(** ** Construction, reset and wake-up *)

Lemma reset_run wait_in_ms self :
  reset wait_in_ms self = (Return tt, advance 0 (reset_trace wait_in_ms) self).
Proof.
  unfold reset, bind, reset_pin_high, reset_pin_low, sleep_ms, wdt_feed.
  change (log PinHigh self) with (advance 0 [PinHigh] self).
  now rewrite !log_advance.
Qed.

(** The poll gives up at its first query when nothing is read. *)
Lemma _poll_until_ready_silent fuel self :
  truthy (rx self (reads self)) = false ->
  _poll_until_ready (S fuel) self =
  (Raise RN2483NoResponseError,
   advance 1 ([Feed] ++ exchange "sys get hweui" 100 (rx self (reads self)))
     self).
Proof.
  intros Ht. unfold _poll_until_ready.
  rewrite bind_eq, wdt_feed_eq, bind_eq. cbn [poll_loop].
  rewrite bind_eq, sys_get_hweui_refusal. simpl_state.
  unfold refusal.
  destruct (rx self (reads self)) as [[|a b]|]; try discriminate;
    cbn [received truthy]; (f_equal; apply state_eq; simpl_state;
      try reflexivity; now rewrite <- app_assoc).
Qed.

(** X12.  The constructor pulses the reset line and then polls.  When the
    module stays silent it raises [RN2483NoResponseError] after the reset
    pulse and a single hardware-EUI query, and [hw_eui] is left unset.
    When the module answers, after [k] passes of the poll, with something
    else than the sentinel, it returns with that answer cached, having made
    [2k+2] reads. *)
Theorem __init___spec fuel line appeui appkey :
  let self := boot line appeui appkey in
  (0 < fuel -> truthy (line 0) = false ->
   __init__ fuel self =
   (Raise RN2483NoResponseError,
    advance 1
      (reset_trace 500 ++ [Feed] ++ exchange "sys get hweui" 100 (line 0))
      self) /\
   hw_eui (snd (__init__ fuel self)) = None) /\
  (forall passes final extra decoded,
      next_reads line 0 (poll_reads passes final extra) ->
      Forall (fun p => received (fst p) = Some "invalid_param" /\
                       exists any, received (snd p) = Some any) passes ->
      received final = Some decoded ->
      decoded <> "invalid_param" ->
      length passes < fuel ->
      __init__ fuel self =
      (Return tt,
       set_hw_eui decoded
         (advance (2 * length passes + 2)
            (reset_trace 500 ++ poll_trace passes final extra) self))).
Proof.
  cbv zeta. split.
  - intros Hfuel Ht. destruct fuel as [|fuel]; [lia|].
    unfold __init__. rewrite bind_eq, reset_run.
    rewrite _poll_until_ready_silent by exact Ht.
    split; reflexivity.
  - intros passes final extra decoded Hn Hp Hf Hd Hfuel.
    unfold __init__. rewrite bind_eq, reset_run.
    rewrite (_poll_until_ready_run passes fuel _ final extra decoded)
      by assumption.
    reflexivity.
Qed.

Lemma __init___spec_witness :
  __init__ 1 (boot (script []) "appeui" "appkey") =
  (Raise RN2483NoResponseError,
   advance 1 (reset_trace 500 ++ [Feed] ++ exchange "sys get hweui" 100 None)
     (boot (script []) "appeui" "appkey")) /\
  hw_eui (snd (__init__ 2
                 (demo [line "invalid_param"; line "example_hw_eui";
                        line "example_hw_eui"; line "example_hw_eui"])))
    = Some "example_hw_eui".
Proof.
  split.
  - apply (proj1 (__init___spec 1 (script []) "appeui" "appkey"));
      [lia | reflexivity].
  - unfold demo.
    rewrite (proj2 (__init___spec 2
                      (script [line "invalid_param"; line "example_hw_eui";
                               line "example_hw_eui"; line "example_hw_eui"])
                      "0123456789012345" "01234567890123450123456789012345")
               [(line "invalid_param", line "example_hw_eui")]
               (line "example_hw_eui") (line "example_hw_eui")
               "example_hw_eui").
    + reflexivity.
    + simpl. repeat split.
    + constructor; [|constructor]. split; [reflexivity|].
      exists "example_hw_eui". reflexivity.
    + reflexivity.
    + discriminate.
    + simpl. lia.
Defined.

(** X13.  The readiness poll retries on the sentinel only.  When a query
    reads nothing it raises [RN2483NoResponseError] at once: at the first
    query, after a single write; or at the query of the loop body, in which
    case the sentinel read just before stays cached in [hw_eui]. *)
Theorem _poll_until_ready_stops_on_silence fuel self :
  (truthy (rx self (reads self)) = false ->
   _poll_until_ready (S fuel) self =
   (Raise RN2483NoResponseError,
    advance 1 ([Feed] ++ exchange "sys get hweui" 100 (rx self (reads self)))
      self)) /\
  (received (rx self (reads self)) = Some "invalid_param" ->
   truthy (rx self (S (reads self))) = false ->
   let run := _poll_until_ready (S fuel) self in
   fst run = Raise RN2483NoResponseError /\
   hw_eui (snd run) = Some "invalid_param" /\
   reads (snd run) = 2 + reads self /\
   writes_after self (snd run) (repeat ("sys get hweui" ++ CRLF) 2)).
Proof.
  split; [apply _poll_until_ready_silent|].
  intros Hs Ht. cbv zeta. unfold _poll_until_ready.
  rewrite bind_eq, wdt_feed_eq, bind_eq. cbn [poll_loop].
  rewrite bind_eq, sys_get_hweui_run. simpl_state. rewrite Hs.
  change ("invalid_param" =? "invalid_param") with true. cbv beta iota.
  rewrite bind_eq, sleep_ms_eq, bind_eq, sys_get_hweui_run. simpl_state.
  destruct (rx self (S (reads self))) as [[|a b]|]; try discriminate;
    cbn [received truthy fst snd]; simpl_state;
    (split; [reflexivity|]; split; [reflexivity|]; split; [reflexivity|];
     unfold writes_after; simpl_state; rewrite !writes_of_app;
     rewrite <- ?app_assoc; reflexivity).
Qed.

Lemma _poll_until_ready_stops_on_silence_witness :
  fst (_poll_until_ready 5 (demo [line "invalid_param"; None])) =
    Raise RN2483NoResponseError /\
  hw_eui (snd (_poll_until_ready 5 (demo [line "invalid_param"; None])))
    = Some "invalid_param".
Proof.
  destruct (proj2 (_poll_until_ready_stops_on_silence 4
                     (demo [line "invalid_param"; None])))
    as (H1 & H2 & _); [reflexivity | reflexivity |].
  split; [exact H1 | exact H2].
Defined.

Lemma poll_loop_spins fuel :
  forall self,
    (forall n, reads self <= n -> received (rx self n) = Some "invalid_param") ->
    fst (poll_loop fuel self) = OutOfFuel.
Proof.
  induction fuel as [|fuel IH]; intros self H; [reflexivity|].
  cbn [poll_loop].
  rewrite bind_eq, sys_get_hweui_run, (H (reads self)) by lia.
  change ("invalid_param" =? "invalid_param") with true. cbv beta iota.
  rewrite bind_eq, sleep_ms_eq, bind_eq, sys_get_hweui_run. simpl_state.
  rewrite (H (S (reads self))) by lia.
  cbv beta iota. rewrite bind_eq, wdt_feed_eq.
  apply IH. intros n Hn. simpl_state. apply H. cbn in Hn. lia.
Qed.

(** X14.  The readiness poll has no bound of its own: on a module that
    answers every query with the sentinel it has not returned after any
    number of passes. *)
Theorem _poll_until_ready_unbounded self :
  (forall n, reads self <= n -> received (rx self n) = Some "invalid_param") ->
  forall fuel, fst (_poll_until_ready fuel self) = OutOfFuel.
Proof.
  intros H fuel. unfold _poll_until_ready.
  rewrite bind_eq, wdt_feed_eq, bind_eq.
  pose proof (poll_loop_spins fuel (log Feed self) H) as Hl.
  destruct (poll_loop fuel (log Feed self)) as [[[]|e|] s']; cbn [fst] in Hl;
    try discriminate. reflexivity.
Qed.

Lemma _poll_until_ready_unbounded_witness :
  fst (_poll_until_ready 7
         (boot (fun _ => line "invalid_param") "appeui" "appkey"))
    = OutOfFuel.
Proof.
  apply (_poll_until_ready_unbounded
           (boot (fun _ => line "invalid_param") "appeui" "appkey")).
  intros n _. reflexivity.
Defined.

(** X15.  [send_break_condition] sends the break before anything else and
    then polls like the constructor does: when the module answers, after
    [k] passes, with something else than the sentinel, it returns with that
    answer cached in [hw_eui], replacing what was cached before; when the
    module stays silent it raises [RN2483NoResponseError] after the break
    and a single query. *)
Theorem send_break_condition_spec fuel self :
  (truthy (rx self (reads self)) = false ->
   send_break_condition (S fuel) self =
   (Raise RN2483NoResponseError,
    advance 1
      ([SendBreak; Feed] ++ exchange "sys get hweui" 100 (rx self (reads self)))
      self)) /\
  (forall passes final extra decoded,
      next_reads (rx self) (reads self) (poll_reads passes final extra) ->
      Forall (fun p => received (fst p) = Some "invalid_param" /\
                       exists any, received (snd p) = Some any) passes ->
      received final = Some decoded ->
      decoded <> "invalid_param" ->
      length passes < fuel ->
      send_break_condition fuel self =
      (Return tt,
       set_hw_eui decoded
         (advance (2 * length passes + 2)
            (SendBreak :: poll_trace passes final extra) self))).
Proof.
  split.
  - intros Ht. unfold send_break_condition.
    rewrite bind_eq. unfold uart_sendbreak at 1.
    rewrite _poll_until_ready_silent by exact Ht.
    f_equal. apply state_eq; simpl_state; try reflexivity.
    now rewrite <- app_assoc.
  - intros passes final extra decoded Hn Hp Hf Hd Hfuel.
    unfold send_break_condition.
    rewrite bind_eq. unfold uart_sendbreak at 1.
    rewrite (_poll_until_ready_run passes fuel _ final extra decoded)
      by assumption.
    f_equal. apply state_eq; simpl_state; try reflexivity.
    now rewrite <- app_assoc.
Qed.

Lemma send_break_condition_spec_witness :
  hw_eui (snd (send_break_condition 1
                 (set_hw_eui "stale" (demo [line "example_hw_eui"]))))
    = Some "example_hw_eui".
Proof.
  rewrite (proj2 (send_break_condition_spec 1
                    (set_hw_eui "stale" (demo [line "example_hw_eui"])))
             [] (line "example_hw_eui") None "example_hw_eui").
  - reflexivity.
  - simpl. repeat split.
  - constructor.
  - reflexivity.
  - discriminate.
  - simpl. lia.
Defined.

(** ** What [execute] and [execute_multiple] hand back *)

Lemma lstrip_starts_in_text (s : str) : starts_in_text (lstrip s) = true.
Proof.
  induction s as [|a s IH]; cbn; [reflexivity|].
  destruct (is_space a) eqn:E; [exact IH|]. cbn. now rewrite E.
Qed.

Lemma lstrip_fixed (s : str) : starts_in_text s = true -> lstrip s = s.
Proof.
  destruct s as [|a s]; cbn; [reflexivity|].
  destruct (is_space a); [discriminate | reflexivity].
Qed.

Lemma rstrip_starts_in_text (s : str) :
  starts_in_text s = true -> starts_in_text (rstrip s) = true.
Proof.
  destruct s as [|a s]; cbn; [reflexivity|]. intros H.
  destruct (rstrip s); [|exact H].
  destruct (is_space a) eqn:E; [discriminate|]. cbn. now rewrite E.
Qed.

Lemma rstrip_idempotent (s : str) : rstrip (rstrip s) = rstrip s.
Proof.
  induction s as [|a s IH]; cbn; [reflexivity|].
  destruct (rstrip s) as [|b r] eqn:E.
  - destruct (is_space a) eqn:Ha; cbn; [reflexivity|]. now rewrite Ha.
  - cbn [rstrip]. cbn [rstrip] in IH. rewrite IH. reflexivity.
Qed.

Lemma strip_fixed (s : str) :
  lstrip (strip s) = strip s /\ rstrip (strip s) = strip s /\
  strip (strip s) = strip s.
Proof.
  unfold strip.
  assert (Hl : lstrip (rstrip (lstrip s)) = rstrip (lstrip s))
    by (apply lstrip_fixed, rstrip_starts_in_text, lstrip_starts_in_text).
  split; [exact Hl|]. split; [apply rstrip_idempotent|].
  rewrite Hl. apply rstrip_idempotent.
Qed.

(** X16.  Whatever the outcome, [execute] writes the command line once and
    then reads once, in that order, with the settle delay and a watchdog
    feed in between; it feeds the watchdog once more after the read exactly
    when it returns, and not when it raises. *)
Theorem execute_one_write_one_read command validate valid self :
  exists fed : bool,
    snd (execute command validate valid self) =
    advance 1
      ([Feed; Write (command ++ CRLF); SleepMs 100; Feed;
        ReadLine (rx self (reads self))]
       ++ (if fed then [Feed] else [])) self /\
    (fed = true <-> exists decoded,
        fst (execute command validate valid self) = Return decoded) /\
    (fed = false <-> exists e,
        fst (execute command validate valid self) = Raise e).
Proof.
  rewrite execute_run. cbv zeta.
  destruct (rx self (reads self)) as [[|a b]|].
  1,3: exists false; rewrite app_nil_r; cbn;
    repeat split; eauto; try discriminate; intros [? ?]; discriminate.
  destruct (decode_utf8 (String a b)) as [text|].
  2: exists false; rewrite app_nil_r; cbn;
    repeat split; eauto; try discriminate; intros [? ?]; discriminate.
  destruct (validate && negb (strip text =? valid)).
  - exists false. rewrite app_nil_r. cbn.
    repeat split; eauto; try discriminate; intros [? ?]; discriminate.
  - exists true. rewrite advance_advance. cbn.
    repeat split; eauto; try discriminate; intros [? ?]; discriminate.
Qed.

(** X17.  The text [execute] returns has no whitespace left at either end:
    stripping it again, on the left, on the right or on both sides, gives
    it back unchanged.  With validation on, the only text it can return is
    the expected token. *)
Theorem execute_returns_stripped_text command validate valid self decoded :
  fst (execute command validate valid self) = Return decoded ->
  lstrip decoded = decoded /\ rstrip decoded = decoded /\
  strip decoded = decoded /\
  received (rx self (reads self)) = Some decoded /\
  (validate = true -> decoded = valid).
Proof.
  rewrite execute_run. cbv zeta.
  destruct (rx self (reads self)) as [[|a b]|]; try discriminate.
  cbn [received].
  destruct (decode_utf8 (String a b)) as [text|]; try discriminate.
  destruct validate; cbn [andb option_map].
  - destruct (String.eqb_spec (strip text) valid) as [E|N]; cbn;
      [|discriminate].
    intros [= <-]. destruct (strip_fixed text) as (H1 & H2 & H3). auto.
  - cbn. intros [= <-]. destruct (strip_fixed text) as (H1 & H2 & H3).
    repeat split; auto. discriminate.
Qed.

Lemma execute_returns_stripped_text_witness :
  strip "ok" = "ok" /\ received (line "  ok ") = Some "ok".
Proof.
  destruct (execute_returns_stripped_text "mac save" true "ok"
              (demo [line "  ok "]) "ok") as (_ & _ & H & Hr & _).
  - reflexivity.
  - split; [exact H | exact Hr].
Defined.

Lemma read_loop_results fuel :
  forall response results self out,
    fst (read_loop fuel response results self) = Return out ->
    exists more,
      out = (results ++ more)%list /\ Forall (fun d => strip d = d) more.
Proof.
  induction fuel as [|fuel IH]; intros [b|] results self out.
  - discriminate.
  - cbn. intros [= <-]. exists []. rewrite app_nil_r. auto.
  - rewrite read_loop_step. cbv zeta.
    destruct (rx self (reads self)) as [[|a c]|].
    + apply IH.
    + destruct (decode_utf8 (String a c)) as [text|]; [|discriminate].
      intros H. apply IH in H. destruct H as (more & -> & Hm).
      exists (strip text :: more). rewrite <- app_assoc. split; [reflexivity|].
      constructor; [apply strip_fixed | exact Hm].
    + apply IH.
  - cbn. intros [= <-]. exists []. rewrite app_nil_r. auto.
Qed.

(** X18.  When [execute_multiple] returns, the sequence it returns is never
    empty: it starts with the text of the first read and every element is
    stripped of whitespace at both ends; with validation on it is the
    expected sequence.  So with validation on and an empty expected
    sequence [execute_multiple] cannot return. *)
Theorem execute_multiple_returns_lines fuel command validate valid self :
  (forall results,
      fst (execute_multiple fuel command validate valid self) = Return results ->
      (exists first rest,
          results = first :: rest /\
          received (rx self (reads self)) = Some first) /\
      Forall (fun d => strip d = d) results /\
      (validate = true -> results = valid)) /\
  (forall results,
      fst (execute_multiple fuel command true [] self) <> Return results).
Proof.
  assert (Hmain : forall validate valid results,
    fst (execute_multiple fuel command validate valid self) = Return results ->
    (exists first rest,
        results = first :: rest /\
        received (rx self (reads self)) = Some first) /\
    Forall (fun d => strip d = d) results /\
    (validate = true -> results = valid)).
  { clear validate valid. intros validate valid results.
    rewrite execute_multiple_run. cbv zeta.
    destruct (received (rx self (reads self))) as [decoded|] eqn:Hr;
      [|discriminate].
    match goal with
    | |- context [read_loop ?f ?r ?l ?s] =>
        pose proof (read_loop_results f r l s) as Hl;
        destruct (read_loop f r l s) as [[out|e|] final]
    end; try discriminate. cbn [fst] in Hl.
    destruct (Hl out eq_refl) as (more & -> & Hm).
    assert (Hd : strip decoded = decoded).
    { apply received_iff in Hr. destruct Hr as (b & text & _ & _ & _ & ->).
      apply strip_fixed. }
    destruct validate; cbn [andb].
    - destruct (list_eqb ([decoded] ++ more) valid) eqn:L; cbn;
        [|discriminate].
      apply list_eqb_eq in L. intros [= <-].
      split; [eauto|]. split; [constructor; auto | auto].
    - cbn. intros [= <-].
      split; [eauto|]. split; [constructor; auto | discriminate]. }
  split; [apply Hmain|].
  intros results H. apply Hmain in H.
  destruct H as ((first & rest & -> & _) & _ & Hv).
  specialize (Hv eq_refl). discriminate.
Qed.

Lemma execute_multiple_returns_lines_witness :
  exists first rest,
    ["ok"; "accepted"] = first :: rest /\ received (line "ok") = Some first.
Proof.
  destruct (execute_multiple_returns_lines 2 "mac join otaa" true
              ["ok"; "accepted"] (demo [line "ok"; line "accepted"; None]))
    as (H & _).
  destruct (H ["ok"; "accepted"] eq_refl) as (Hfirst & _).
  exact Hfirst.
Defined.

(** ** The payload of [send] *)

Lemma unhex_byte (a : ascii) :
  hex_value (hex_digit (N.shiftr (N_of_ascii a) 4))
    = Some (N.shiftr (N_of_ascii a) 4) /\
  hex_value (hex_digit (N.land (N_of_ascii a) 15))
    = Some (N.land (N_of_ascii a) 15) /\
  ascii_of_N (16 * N.shiftr (N_of_ascii a) 4 + N.land (N_of_ascii a) 15) = a.
Proof.
  destruct a as [[] [] [] [] [] [] [] []]; vm_compute; repeat split.
Qed.

Lemma unhex_hexlify (b : bytes) : unhex (hexlify b) = Some b.
Proof.
  induction b as [|a b IH]; [reflexivity|].
  cbn [hexlify unhex]. destruct (unhex_byte a) as (-> & -> & Ha).
  now rewrite IH, Ha.
Qed.

Lemma list_ascii_of_string_append (a b : string) :
  list_ascii_of_string (a ++ b)
  = (list_ascii_of_string a ++ list_ascii_of_string b)%list.
Proof. induction a as [|c a IH]; cbn; [reflexivity | now rewrite IH]. Qed.

Lemma append_inv_tail (a b c : string) : a ++ c = b ++ c -> a = b.
Proof.
  intros H. apply (f_equal list_ascii_of_string) in H.
  rewrite !list_ascii_of_string_append in H. apply app_inv_tail in H.
  apply (f_equal string_of_list_ascii) in H.
  now rewrite !string_of_list_ascii_of_string in H.
Qed.

(** X19.  The payload can be read back from what [send] writes: the
    hexadecimal part of the command decodes to exactly the bytes of [data],
    so two different payloads never produce the same command line. *)
Theorem send_payload_recoverable :
  (forall data self,
      exists hex,
        writes_after self (snd (send data self))
          ["mac tx uncnf 1 " ++ hex ++ CRLF] /\
        unhex hex = Some (encode_utf8 data)) /\
  (forall data1 data2 self,
      writes_of (trace (snd (send data1 self)))
      = writes_of (trace (snd (send data2 self))) ->
      data1 = data2).
Proof.
  assert (Hw : forall data self,
    writes_after self (snd (send data self))
      ["mac tx uncnf 1 " ++ hexlify (encode_utf8 data) ++ CRLF]).
  { intros data self. unfold send, decode. rewrite decode_hexlify.
    change ((buffer <- ret (hexlify (encode_utf8 data)) ;;
             execute ("mac tx uncnf 1 " ++ buffer) false "ok" ;; ret tt) self)
      with ((execute ("mac tx uncnf 1 " ++ hexlify (encode_utf8 data)) false "ok"
             ;; ret tt) self).
    rewrite bind_ret_tt. cbn [snd]. apply execute_writes. }
  split.
  - intros data self. exists (hexlify (encode_utf8 data)).
    split; [apply Hw | apply unhex_hexlify].
  - intros data1 data2 self H.
    rewrite (Hw data1 self), (Hw data2 self) in H.
    apply app_inv_head in H. injection H as H.
    apply append_inv_tail in H.
    apply (f_equal unhex) in H. rewrite !unhex_hexlify in H.
    now injection H.
Qed.

Lemma send_payload_recoverable_witness :
  exists hex,
    writes_after (demo [line "ok"]) (snd (send "PeterMaffay" (demo [line "ok"])))
      ["mac tx uncnf 1 " ++ hex ++ CRLF] /\
    unhex hex = Some "PeterMaffay".
Proof.
  apply (proj1 send_payload_recoverable "PeterMaffay" (demo [line "ok"])).
Defined.

(** ** Credentials of the wrong length *)

(** X20.  With an app EUI that is not 16 characters long or an app key that
    is not 32 characters long, the join-and-configure sequence never
    returns and never gets as far as the app key or the join: whatever the
    module answers, it raises after having written at most the first four
    commands of the sequence. *)
Theorem initialize_ttn_otaa_rejects_bad_credentials fuel self :
  len (app_eui self) <> 16 \/ len (app_key self) <> 32 ->
  exists e k,
    fst (initialize_ttn_otaa fuel self) = Raise e /\
    k <= 4 /\
    writes_after self (snd (initialize_ttn_otaa fuel self))
      (firstn k
         (otaa_commands (text_of (rx self (reads self))) (app_eui self)
            (app_key self))).
Proof.
  intros Hbad.
  assert (Hdone : forall e k final,
    k <= 4 ->
    writes_after self final
      (firstn k
         (otaa_commands (text_of (rx self (reads self))) (app_eui self)
            (app_key self))) ->
    exists e' k',
      fst (@Raise unit e, final) = Raise e' /\ k' <= 4 /\
      writes_after self (snd (@Raise unit e, final))
        (firstn k'
           (otaa_commands (text_of (rx self (reads self))) (app_eui self)
              (app_key self)))).
  { intros e k final Hk Hw. exists e, k. cbn [fst snd]. auto. }
  expose_commands.
  destruct (refusal false "ok" (rx self (reads self))) eqn:H0; run_step.
  { apply (Hdone _ 1); [lia|].
    unfold writes_after; simpl_state; rewrite !writes_of_app;
      rewrite <- ?app_assoc; reflexivity. }
  run_step.
  destruct (refusal false "ok" (rx self (S (reads self)))) eqn:H1; run_step.
  { apply (Hdone _ 2); [lia|].
    unfold writes_after; simpl_state; rewrite !writes_of_app;
      rewrite <- ?app_assoc; reflexivity. }
  run_step.
  destruct (refusal true "ok" (rx self (S (S (reads self))))) eqn:H2; run_step.
  { apply (Hdone _ 3); [lia|].
    unfold writes_after; simpl_state; rewrite !writes_of_app;
      rewrite <- ?app_assoc; reflexivity. }
  run_step.
  rewrite bind_eq, mac_set_appeui_eq. simpl_state.
  destruct (Nat.eqb (len (app_eui self)) 16) eqn:Heui.
  2: { apply (Hdone _ 3); [lia|].
       unfold writes_after; simpl_state; rewrite !writes_of_app;
         rewrite <- ?app_assoc; reflexivity. }
  rewrite command_run. simpl_state.
  destruct (refusal true "ok" (rx self (S (S (S (reads self)))))) eqn:H3;
    cbv beta iota.
  { apply (Hdone _ 4); [lia|].
    unfold writes_after; simpl_state; rewrite !writes_of_app;
      rewrite <- ?app_assoc; reflexivity. }
  run_step.
  rewrite bind_eq, mac_set_appkey_eq. simpl_state.
  apply Nat.eqb_eq in Heui.
  destruct Hbad as [Hbad | Hbad]; [contradiction|].
  apply Nat.eqb_neq in Hbad. rewrite Hbad.
  apply (Hdone _ 4); [lia|].
  unfold writes_after; simpl_state; rewrite !writes_of_app;
    rewrite <- ?app_assoc; reflexivity.
Qed.

Lemma initialize_ttn_otaa_rejects_bad_credentials_witness :
  exists e k,
    fst (initialize_ttn_otaa 2
           (boot (script (otaa_answers [line "ok"; line "accepted"; None]))
              "<insert_app_eui_here>" "<insert_app_key_here>")) = Raise e /\
    k <= 4 /\
    writes_after
      (boot (script (otaa_answers [line "ok"; line "accepted"; None]))
         "<insert_app_eui_here>" "<insert_app_key_here>")
      (snd (initialize_ttn_otaa 2
              (boot (script (otaa_answers [line "ok"; line "accepted"; None]))
                 "<insert_app_eui_here>" "<insert_app_key_here>")))
      (firstn k
         (otaa_commands "example_hw_eui" "<insert_app_eui_here>"
            "<insert_app_key_here>")).
Proof.
  apply (initialize_ttn_otaa_rejects_bad_credentials 2
           (boot (script (otaa_answers [line "ok"; line "accepted"; None]))
              "<insert_app_eui_here>" "<insert_app_key_here>")).
  left. simpl. lia.
Defined.
